(** * probe-engine: a shallow embedding of the code the specification talks about

    The development follows the layout of the repository:

    - [gostring], [gosort], [strconv], [http]: the few pieces of the Go
      runtime and standard library the embedded code calls;
    - [hhfm]: experiment/hhfm/hhfm.go, the HTTP header field manipulation
      experiment (archival entries, [Transact], [FillTampering], [Run]);
    - [libminiooni]: the miniooni command line driver, in particular the
      typing of the extra options given as text;
    - [oonimkall]: the asynchronous task runner exercised by the oonimkall
      integration tests, whose code is not among the sources and is taken
      from the specification;
    - [oonimkall_test]: the key compression the interrupt tests apply to the
      events they observe.

    Go strings are byte sequences, and so are the strings of the Standard
    Library (one [ascii] is one byte).  Go maps are [gmap]s; the order in which
    a [range] statement enumerates a map is not fixed by the language, so every
    loop over a map takes its enumeration from an oracle that is only known to
    return a permutation of the bindings. *)

From Stdlib Require Import ZArith Ascii String List Bool Lia.
From stdpp Require Import gmap strings list sorting.

Local Open Scope string_scope.
Local Open Scope list_scope.
Local Open Scope Z_scope.

(** ** Byte-wise order of Go strings *)

Module gostring.

(** [a < b] on Go strings compares byte by byte; a proper prefix is smaller. *)
Definition lt (a b : string) : Prop := String.compare a b = Lt.

Definition ltb (a b : string) : bool := String.ltb a b.

Lemma ltb_lt (a b : string) : ltb a b = true <-> lt a b.
Proof.
  unfold ltb, String.ltb, lt. destruct (String.compare a b); split; congruence.
Qed.

Lemma ascii_compare_refl (c : ascii) : Ascii.compare c c = Eq.
Proof. unfold Ascii.compare. apply N.compare_refl. Qed.

Lemma ascii_compare_trans (a b c : ascii) :
  Ascii.compare a b = Lt -> Ascii.compare b c = Lt -> Ascii.compare a c = Lt.
Proof.
  unfold Ascii.compare. rewrite !N.compare_lt_iff. apply N.lt_trans.
Qed.

Lemma compare_refl (a : string) : String.compare a a = Eq.
Proof.
  induction a as [|c a IH]; simpl; [reflexivity|].
  now rewrite ascii_compare_refl.
Qed.

Lemma lt_irrefl (a : string) : ~ lt a a.
Proof. unfold lt. rewrite compare_refl. discriminate. Qed.

Lemma lt_trans (a b c : string) : lt a b -> lt b c -> lt a c.
Proof.
  unfold lt. revert b c.
  induction a as [|x a IH]; intros [|y b] [|z c]; simpl; try congruence.
  destruct (Ascii.compare x y) eqn:Hxy; try discriminate.
  - apply Ascii.compare_eq_iff in Hxy. subst y.
    destruct (Ascii.compare x z); try congruence. apply IH.
  - intros _. destruct (Ascii.compare y z) eqn:Hyz; try discriminate.
    + apply Ascii.compare_eq_iff in Hyz. subst z. now rewrite Hxy.
    + intros _. now rewrite (ascii_compare_trans x y z).
Qed.

(** Two different strings are ordered one way or the other. *)
Lemma lt_connex (a b : string) : a <> b -> lt a b \/ lt b a.
Proof.
  intros Hne. unfold lt. rewrite (String.compare_antisym b a).
  destruct (String.compare a b) eqn:Hc; simpl; auto.
  apply String.compare_eq_iff in Hc. contradiction.
Qed.

End gostring.

(** ** sort.Slice *)

Module gosort.

Section Slice.
Context {A : Type} (less : A -> A -> bool).

(** [sort.Slice] is the standard library's in-place comparison sort.  Its
    contract is that the slice is reordered so that no element is [less] than
    one that precedes it; the model is a straight insertion sort, which is
    the only list that meets the contract when the keys are pairwise
    different ([Slice_is_the_sorted_permutation]). *)
Fixpoint insert (x : A) (l : list A) : list A :=
  match l with
  | [] => [x]
  | y :: l' => if less y x then y :: insert x l' else x :: y :: l'
  end.

Fixpoint Slice (l : list A) : list A :=
  match l with
  | [] => []
  | x :: l' => insert x (Slice l')
  end.

Lemma insert_Permutation (x : A) (l : list A) : insert x l ≡ₚ x :: l.
Proof.
  induction l as [|y l IH]; simpl; [done|].
  destruct (less y x); [|done].
  rewrite IH. apply Permutation_swap.
Qed.

Lemma Slice_Permutation (l : list A) : Slice l ≡ₚ l.
Proof.
  induction l as [|x l IH]; simpl; [done|].
  by rewrite insert_Permutation, IH.
Qed.
End Slice.

(** Sorting by a string key with Go's [<]: when the keys are pairwise
    different the result is strictly ascending. *)
Section by_key.
Context {A : Type} (key : A -> string).

Definition less_key (a b : A) : bool := gostring.ltb (key a) (key b).
Definition lt_key (a b : A) : Prop := gostring.lt (key a) (key b).

Lemma insert_StronglySorted (x : A) (l : list A) :
  key x ∉ key <$> l ->
  StronglySorted lt_key l ->
  StronglySorted lt_key (insert less_key x l).
Proof.
  induction l as [|y l IH]; simpl; intros Hfresh Hs.
  - repeat constructor.
  - apply StronglySorted_inv in Hs as [Hs Hy].
    apply not_elem_of_cons in Hfresh as [Hxy Hfresh].
    unfold less_key at 1. destruct (gostring.ltb (key y) (key x)) eqn:Hlt.
    + apply gostring.ltb_lt in Hlt. constructor; [by apply IH|].
      apply Forall_forall. intros z Hz.
      apply (elem_of_Permutation_proper z _ _ (insert_Permutation less_key x l)) in Hz.
      apply elem_of_cons in Hz as [->|Hz]; [done|].
      rewrite Forall_forall in Hy. by apply Hy.
    + assert (Hx : gostring.lt (key x) (key y)).
      { destruct (gostring.lt_connex (key x) (key y) Hxy) as [H|H]; [done|].
        apply gostring.ltb_lt in H. congruence. }
      constructor; [by constructor|].
      constructor; [done|].
      eapply Forall_impl; [exact Hy|].
      intros z Hz. unfold lt_key in *. by eapply gostring.lt_trans.
Qed.

Lemma Slice_StronglySorted (l : list A) :
  NoDup (key <$> l) -> StronglySorted lt_key (Slice less_key l).
Proof.
  induction l as [|x l IH]; simpl; intros Hnd; [constructor|].
  apply NoDup_cons in Hnd as [Hx Hnd].
  apply insert_StronglySorted; [|by apply IH].
  by rewrite (Slice_Permutation less_key l).
Qed.

Lemma lt_key_trans (a b c : A) : lt_key a b -> lt_key b c -> lt_key a c.
Proof. unfold lt_key. apply gostring.lt_trans. Qed.

Lemma no_inversion_strict (l : list A) :
  NoDup (key <$> l) ->
  Sorted (fun a b => less_key b a = false) l ->
  StronglySorted lt_key l.
Proof.
  intros Hnd Hs. apply Sorted.Sorted_StronglySorted; [exact lt_key_trans|].
  induction Hs as [|a l Hs IH Hhd]; [constructor|].
  simpl in Hnd. apply NoDup_cons in Hnd as [Ha Hnd].
  constructor; [by apply IH|].
  destruct Hhd as [|b l Hab]; constructor.
  destruct (gostring.lt_connex (key a) (key b)) as [H|H]; [|done|].
  - intros Heq. apply Ha. simpl. rewrite Heq. left.
  - apply gostring.ltb_lt in H. unfold less_key in Hab. congruence.
Qed.

(** The contract of [sort.Slice] leaves one result when the keys are pairwise
    different: whatever algorithm the library runs, a permutation of the slice
    in which no element is [less] than its predecessor is the list [Slice]
    returns. *)
Lemma Slice_is_the_sorted_permutation (l l' : list A) :
  NoDup (key <$> l) ->
  l' ≡ₚ l ->
  Sorted (fun a b => less_key b a = false) l' ->
  l' = Slice less_key l.
Proof.
  intros Hnd Hperm Hs.
  apply (StronglySorted_unique_strong lt_key).
  - intros a b _ _ Hab Hba. destruct (gostring.lt_irrefl (key a)).
    by apply (gostring.lt_trans _ (key b)).
  - apply no_inversion_strict; [|done]. by rewrite Hperm.
  - by apply Slice_StronglySorted.
  - by rewrite Slice_Permutation.
Qed.
End by_key.

End gosort.

(** ** Go errors *)

(** The error values the embedded code creates or passes on.  An [error] is an
    interface value: [None] is Go's [nil]. *)
Inductive Err : Type :=
| ErrNoAvailableTestHelpers   (* hhfm: "no available helpers" *)
| ErrInvalidHelperType        (* hhfm: "invalid helper type" *)
| ErrHTTPRequestFailed        (* urlgetter.ErrHTTPRequestFailed *)
| ErrSyntax                   (* strconv.ErrSyntax *)
| ErrRange                    (* strconv.ErrRange *)
| ErrInvalidKeyValuePair      (* libminiooni: "invalid key-value pair" *)
| ErrForeign (description : string).  (* any error made outside this code *)

Abbreviation error := (option Err).

(** A call either returns or panics with a message. *)
Inductive Outcome (A : Type) : Type :=
| Returned (a : A)
| Panicked (msg : string).
Arguments Returned {A} a.
Arguments Panicked {A} msg.

Definition bind {A B : Type} (o : Outcome A) (k : A -> Outcome B) : Outcome B :=
  match o with
  | Returned a => k a
  | Panicked msg => Panicked msg
  end.

Notation "'do' x <- o ; k" := (bind o (fun x => k))
  (at level 10, x name, o at level 100, k at level 200).

(** ** net/http, as far as hhfm.go uses it *)

Module http.

Abbreviation Header := (gmap string (list string)).

Record Request : Type := {
  Request_Method : string;
  Request_URL : string;              (* what [req.URL.String()] prints *)
  Request_Header : Header;
  Request_Host : string;
}.

Record Response : Type := {
  StatusCode : Z;
  Response_Header : Header;
  Body : string * error;             (* what [ioutil.ReadAll(resp.Body)] yields *)
}.

(** [Header.Get] and [Header.Set] work on the canonical form of the key. *)
Definition Header_Get (canonical : string -> string) (h : Header) (key : string) : string :=
  match h !! canonical key with
  | Some (v :: _) => v
  | _ => ""
  end.

Definition Header_Set (canonical : string -> string) (h : Header) (key value : string) : Header :=
  <[canonical key := [value]]> h.

End http.

(** ** netx/archival: the fields of the archival format hhfm.go fills *)

Module archival.

Record MaybeBinaryValue : Type := { Value : string }.

Record HTTPHeader : Type := {
  Key : string;
  HTTPHeader_Value : MaybeBinaryValue;
}.

Record HTTPRequest : Type := {
  HTTPRequest_Headers : gmap string MaybeBinaryValue;
  HTTPRequest_HeadersList : list HTTPHeader;
  Method : string;
  URL : string;
}.

Record HTTPResponse : Type := {
  HTTPResponse_Body : MaybeBinaryValue;
  Code : Z;
  HTTPResponse_Headers : gmap string MaybeBinaryValue;
  HTTPResponse_HeadersList : list HTTPHeader;
}.

Record RequestEntry : Type := {
  RequestEntry_Failure : option string;
  Request : HTTPRequest;
  Response : HTTPResponse;
}.

(** The zero value of [HTTPResponse] (a nil map reads like an empty one). *)
Definition zero_HTTPResponse : HTTPResponse :=
  {| HTTPResponse_Body := {| Value := "" |}; Code := 0;
     HTTPResponse_Headers := ∅; HTTPResponse_HeadersList := [] |}.

(** The pair a list entry stands for. *)
Definition binding (h : HTTPHeader) : string * MaybeBinaryValue :=
  (Key h, HTTPHeader_Value h).

(** [sort.Slice(list, func(i, j) bool { return list[i].Key < list[j].Key })] *)
Definition sort_by_Key (l : list HTTPHeader) : list HTTPHeader :=
  gosort.Slice (gosort.less_key Key) l.

(** The relation between the two renderings of a header set in the archival
    format: the list is strictly ascending in the key and holds the bindings of
    the map, each once. *)
Definition headers_consistent
    (m : gmap string MaybeBinaryValue) (l : list HTTPHeader) : Prop :=
  StronglySorted (gosort.lt_key Key) l /\ binding <$> l ≡ₚ map_to_list m.

(** Upper case sorts before lower case, byte by byte. *)
Example sort_by_Key_orders_bytes :
  Key <$> sort_by_Key [ {| Key := "hOSt"; HTTPHeader_Value := {| Value := "a.com" |} |};
                        {| Key := "aCCePT"; HTTPHeader_Value := {| Value := "*/*" |} |};
                        {| Key := "User-AGENT"; HTTPHeader_Value := {| Value := "miniooni" |} |};
                        {| Key := "Accept-Language"; HTTPHeader_Value := {| Value := "en" |} |} ]
  = ["Accept-Language"; "User-AGENT"; "aCCePT"; "hOSt"].
Proof. reflexivity. Qed.

End archival.

(** ** bytes.HasPrefix, bytes.Contains and bytes.Replace with a count of one *)

Module gobytes.

Fixpoint HasPrefix (s prefix : string) : bool :=
  match prefix, s with
  | EmptyString, _ => true
  | String p prefix', String c s' => Ascii.eqb c p && HasPrefix s' prefix'
  | String _ _, EmptyString => false
  end.

Fixpoint drop (n : nat) (s : string) : string :=
  match n, s with
  | O, _ => s
  | S n', String _ s' => drop n' s'
  | S _, EmptyString => EmptyString
  end.

Fixpoint Contains (s sub : string) : bool :=
  HasPrefix s sub ||
  match s with
  | EmptyString => false
  | String _ s' => Contains s' sub
  end.

(** [bytes.Replace(s, old, new, 1)]: the first instance of [old] is replaced
    by [new]; an empty [old] matches at the beginning. *)
Fixpoint Replace1 (s old new : string) : string :=
  if HasPrefix s old then new +:+ drop (String.length old) s
  else match s with
       | EmptyString => EmptyString
       | String c s' => String c (Replace1 s' old new)
       end.

(** [old] without its last byte. *)
Fixpoint init (old : string) : string :=
  match old with
  | EmptyString => EmptyString
  | String c EmptyString => EmptyString
  | String c rest => String c (init rest)
  end.

Lemma app_cons (c : ascii) (a b : string) : String c a +:+ b = String c (a +:+ b).
Proof. reflexivity. Qed.

Lemma app_nil (b : string) : EmptyString +:+ b = b.
Proof. reflexivity. Qed.

Lemma length_app (a b : string) :
  String.length (a +:+ b) = (String.length a + String.length b)%nat.
Proof.
  induction a as [|c a IH]; [done|].
  rewrite app_cons. simpl. by rewrite IH.
Qed.

Lemma app_assoc (a b c : string) : (a +:+ b) +:+ c = a +:+ (b +:+ c).
Proof.
  induction a as [|x a IH]; [done|].
  by rewrite !app_cons, IH.
Qed.

Lemma HasPrefix_split (s prefix : string) :
  HasPrefix s prefix = true -> s = prefix +:+ drop (String.length prefix) s.
Proof.
  revert s. induction prefix as [|p prefix IH]; intros s; [done|].
  destruct s as [|c s]; [done|].
  simpl. intros H. apply andb_prop in H as [Hc Hs].
  apply Ascii.eqb_eq in Hc as ->. rewrite app_cons. f_equal. by apply IH.
Qed.

Lemma HasPrefix_app (prefix rest : string) : HasPrefix (prefix +:+ rest) prefix = true.
Proof.
  induction prefix as [|p prefix IH]; [by destruct rest|].
  rewrite app_cons. simpl. by rewrite Ascii.eqb_refl, IH.
Qed.

Lemma drop_app (prefix rest : string) : drop (String.length prefix) (prefix +:+ rest) = rest.
Proof. induction prefix as [|p prefix IH]; [by destruct rest|]. rewrite app_cons. done. Qed.

Lemma Replace1_eq (s old new : string) :
  Replace1 s old new =
  if HasPrefix s old then new +:+ drop (String.length old) s
  else match s with
       | EmptyString => EmptyString
       | String c s' => String c (Replace1 s' old new)
       end.
Proof. by destruct s. Qed.

Lemma Replace1_absent (s old new : string) :
  Contains s old = false -> Replace1 s old new = s.
Proof.
  induction s as [|c s IH]; simpl; intros H; apply orb_false_iff in H as [-> H]; [done|].
  by rewrite IH.
Qed.

Lemma Replace1_length (s old new : string) :
  String.length old = String.length new ->
  String.length (Replace1 s old new) = String.length s.
Proof.
  intros Hlen. induction s as [|c s IH].
  - destruct old as [|o old]; [by destruct new|done].
  - rewrite Replace1_eq.
    destruct (HasPrefix (String c s) old) eqn:Hp; [|simpl; by rewrite IH].
    apply HasPrefix_split in Hp.
    transitivity (String.length (old +:+ drop (String.length old) (String c s))).
    + by rewrite !length_app, Hlen.
    + by rewrite <- Hp.
Qed.

(** A prefix of [a +:+ b] that is no longer than [a] is a prefix of [a]. *)
Lemma HasPrefix_short (a b prefix : string) :
  (String.length prefix <= String.length a)%nat ->
  HasPrefix (a +:+ b) prefix = HasPrefix a prefix.
Proof.
  revert a. induction prefix as [|p prefix IH]; intros a Hlen.
  - by destruct a, b.
  - destruct a as [|c a]; simpl in Hlen; [lia|].
    rewrite app_cons. simpl. rewrite IH by lia. done.
Qed.

Lemma length_init (old : string) :
  old <> EmptyString -> String.length old = S (String.length (init old)).
Proof.
  induction old as [|c old IH]; [done|]. intros _.
  destruct old as [|c' old]; [done|].
  change (init (String c (String c' old))) with (String c (init (String c' old))).
  change (String.length (String c (String c' old))) with (S (String.length (String c' old))).
  change (String.length (String c (init (String c' old))))
    with (S (String.length (init (String c' old)))).
  f_equal. by apply IH.
Qed.

Lemma init_app (old rest : string) :
  old <> EmptyString -> exists last, old +:+ rest = init old +:+ String last rest.
Proof.
  induction old as [|c old IH]; [done|]. intros _.
  destruct old as [|c' old]; [by exists c|].
  destruct IH as [last IH]; [done|]. exists last.
  change (init (String c (String c' old))) with (String c (init (String c' old))).
  rewrite !(app_cons c). f_equal. exact IH.
Qed.

(** When the first instance of [old] starts right after [pre], that instance
    is the one replaced. *)
Lemma Replace1_first (pre old new post : string) :
  old <> EmptyString ->
  Contains (pre +:+ init old) old = false ->
  Replace1 (pre +:+ old +:+ post) old new = pre +:+ new +:+ post.
Proof.
  intros Hold. induction pre as [|c pre IH]; intros Habsent.
  - rewrite !app_nil.
    assert (H := HasPrefix_app old post).
    by rewrite Replace1_eq, H, drop_app.
  - rewrite app_cons in Habsent. simpl in Habsent.
    apply orb_false_iff in Habsent as [Hhere Hlater].
    rewrite !app_cons.
    destruct (init_app old post Hold) as [last Hsplit].
    assert (Hno : HasPrefix (String c (pre +:+ old +:+ post)) old = false).
    { rewrite Hsplit. rewrite <- app_cons, <- app_assoc.
      rewrite HasPrefix_short; [by rewrite app_cons|].
      rewrite length_app, (length_init old Hold). simpl. lia. }
    rewrite Replace1_eq, Hno. f_equal. by apply IH.
Qed.
(** Replacing [old] by itself changes nothing. *)
Lemma Replace1_same (s old : string) : Replace1 s old old = s.
Proof.
  induction s as [|c s IH]; rewrite Replace1_eq.
  - destruct (HasPrefix "" old) eqn:Hp; [|done].
    symmetry. by apply HasPrefix_split.
  - destruct (HasPrefix (String c s) old) eqn:Hp; [|by rewrite IH].
    symmetry. by apply HasPrefix_split.
Qed.

Lemma init_snoc (a : string) (c : ascii) : init (a +:+ String c "") = a.
Proof.
  induction a as [|x a IH]; [done|].
  rewrite app_cons.
  destruct (a +:+ String c "") as [|y rest] eqn:Heq.
  - by destruct a.
  - change (init (String x (String y rest))) with (String x (init (String y rest))).
    by rewrite IH.
Qed.

End gobytes.

(** ** experiment/hhfm/hhfm.go *)

Module hhfm.

Import archival.

Definition testName : string := "http_header_field_manipulation".
Definition testVersion : string := "0.1.0".

(** model.Service, as returned by [sess.GetTestHelpersByName]. *)
Record Service : Type := {
  Address : string;
  Type_ : string;
}.

Record Tampering : Type := {
  HeaderFieldName : bool;
  HeaderFieldNumber : bool;
  HeaderFieldValue : bool;
  HeaderNameCapitalization : bool;
  HeaderNameDiff : list string;
  RequestLineCapitalization : bool;
  Total : bool;
}.

Record TestKeys : Type := {
  Agent : string;
  Failure : option string;
  Requests : list RequestEntry;
  SOCKSProxy : option string;
  Tampering_ : Tampering;
}.

(** JSONHeaders contains the response from the backend server. *)
Record JSONHeaders : Type := {
  HeadersDict : gmap string (list string);
  RequestLine : string;
}.

(** Transport is the definition of http.RoundTripper used by this package:
    a round trip yields a response or an error. *)
Record Transport : Type := {
  RoundTrip : http.Request -> http.Response + Err;
}.

Record Measurer : Type := {
  Measurer_Transport : option Transport;   (* for testing; [None] is nil *)
}.

(** model.ExperimentSession, as far as [Run] uses it. *)
Record ExperimentSession : Type := {
  GetTestHelpersByName : string -> list Service * bool;
}.

(** The part of model.Measurement [Run] writes, over the state [E] that
    urlgetter.RegisterExtensions maintains. *)
Record Measurement {E : Type} : Type := {
  Extensions : E;
  TestHelpers : option (gmap string string);
  Measurement_TestKeys : option TestKeys;
}.
Arguments Measurement : clear implicits.

(** One call of [callbacks.OnProgress]: the percentage in hundredths and the
    message. *)
Definition Progress : Type := Z * string.

Definition ExperimentName (m : Measurer) : string := testName.
Definition ExperimentVersion (m : Measurer) : string := testVersion.

(** net.Conn, as far as this package uses it: [Write] takes the bytes and
    returns a count and an error. *)
Record NetConn : Type := {
  NetConn_Write : string -> Z * error;
}.

(** netx.Dialer: dialing a network and an address gives a connection or an
    error. *)
Definition NetDialer : Type := string -> string -> NetConn + Err.

(** Dialer is a dialer that performs headers transformations. *)
Record Dialer : Type := {
  Dialer_Dialer : option NetDialer;        (* used for testing; [None] is nil *)
  Dialer_Headers : gmap string string;
}.

(** Conn is a connection where headers in the outgoing request are
    transformed according to a transform table. *)
Record Conn : Type := {
  Conn_Conn : NetConn;
  Conn_Headers : gmap string string;
}.

Section with_environment.

(** What the package takes from outside: the enumeration order of each
    [range] over a map (one oracle per loop, told apart by a number), the
    canonical form of a header key, and the helpers of other packages. *)
Context (range : nat -> forall V : Type, gmap string V -> list (string * V)).
Context (CanonicalHeaderKey : string -> string).
Context (fmt_error : error -> string).                    (* "%+v" of an error *)
Context (MaybeBuild : error -> error).                    (* errorx.SafeErrWrapperBuilder *)
Context (NewFailure : error -> option string).            (* archival.NewFailure *)
Context (FailureJSONParseError : string).                 (* errorx *)
Context (json_Unmarshal : string -> JSONHeaders + Err).   (* encoding/json *)
Context (http_NewRequest : string -> string -> http.Request + Err).
Context (headers_of_run : gmap string string).            (* the randomised request headers *)
Context (DefaultTransport : gmap string string -> Transport).
Context {E : Type} (RegisterExtensions : Measurement E -> Measurement E).

Hypothesis range_enumerates :
  forall (site : nat) (V : Type) (m : gmap string V), range site V m ≡ₚ map_to_list m.
Hypothesis MaybeBuild_nil : MaybeBuild None = None.
Hypothesis MaybeBuild_wraps : forall e : Err, MaybeBuild (Some e) <> None.
Hypothesis NewFailure_of_error : forall e : Err, NewFailure (Some e) <> None.

(** *** NewRequestEntryList and NewHTTPResponse *)

(** The two statements every header loop runs:
    [Headers[key] = mbv] and [HeadersList = append(HeadersList, {key, mbv})]. *)
Definition add_header
    (out : gmap string MaybeBinaryValue * list HTTPHeader)
    (key : string) (mbv : MaybeBinaryValue) :
    gmap string MaybeBinaryValue * list HTTPHeader :=
  (<[key := mbv]> (fst out),
   snd out ++ [{| Key := key; HTTPHeader_Value := mbv |}]).

Definition NewRequestEntryList
    (req : http.Request) (headers : gmap string string) : list RequestEntry :=
  let out :=
    foldl (fun out kv =>
             (* Using the random capitalization headers here *)
             let mbv := {| Value := snd kv |} in
             add_header out (fst kv) mbv)
          (∅, []) (range 1 string headers) in
  [ {| RequestEntry_Failure := None;
       Request := {| HTTPRequest_Headers := fst out;
                     HTTPRequest_HeadersList := sort_by_Key (snd out);
                     Method := http.Request_Method req;
                     URL := http.Request_URL req |};
       Response := zero_HTTPResponse |} ].

Definition NewHTTPResponse (resp : http.Response) (data : string) : HTTPResponse :=
  let out :=
    foldl (fun out kv =>
             let key := fst kv in
             let mbv := {| Value := http.Header_Get CanonicalHeaderKey
                                      (http.Response_Header resp) key |} in
             add_header out key mbv)
          (∅, []) (range 2 (list string) (http.Response_Header resp)) in
  {| HTTPResponse_Body := {| Value := data |};
     Code := http.StatusCode resp;
     HTTPResponse_Headers := fst out;
     HTTPResponse_HeadersList := sort_by_Key (snd out) |}.

(** *** Transact *)

(** The triple of response pointer, body bytes and error a transaction
    returns; a nil response is [None]. *)
Definition Transaction : Type := option http.Response * string * error.

Definition transact (txp : Transport) (req : http.Request) :
    list Progress * Transaction :=
  let p1 := (25, "sending request...") in
  match RoundTrip txp req with
  | inr err =>
      ([p1; (50, "got reseponse headers... " +:+ fmt_error (Some err))],
       (None, "", Some err))
  | inl resp =>
      let p2 := (50, "got reseponse headers... " +:+ fmt_error None) in
      if negb (http.StatusCode resp =? 200) then
        ([p1; p2], (None, "", Some ErrHTTPRequestFailed))
      else
        let p3 := (75, "reading response body...") in
        let data := fst (http.Body resp) in
        let err := snd (http.Body resp) in
        let p4 := (100, "got reseponse body... " +:+ fmt_error err) in
        match err with
        | Some _ => ([p1; p2; p3; p4], (None, "", err))
        | None => ([p1; p2; p3; p4], (Some resp, data, None))
        end
  end.

(** Transact performs the HTTP transaction which consists of performing the
    HTTP round trip and then reading the body; the error is wrapped. *)
Definition Transact (txp : Transport) (req : http.Request) :
    list Progress * Transaction :=
  let '(progress, (resp, data, err)) := transact txp req in
  (progress, (resp, data, MaybeBuild err)).

(** *** FillTampering *)

Definition set_Tampering (tk : TestKeys) (t : Tampering) : TestKeys :=
  {| Agent := Agent tk; Failure := Failure tk; Requests := Requests tk;
     SOCKSProxy := SOCKSProxy tk; Tampering_ := t |}.

Definition set_Failure (tk : TestKeys) (f : option string) : TestKeys :=
  {| Agent := Agent tk; Failure := f; Requests := Requests tk;
     SOCKSProxy := SOCKSProxy tk; Tampering_ := Tampering_ tk |}.

Definition set_Requests (tk : TestKeys) (l : list RequestEntry) : TestKeys :=
  {| Agent := Agent tk; Failure := Failure tk; Requests := l;
     SOCKSProxy := SOCKSProxy tk; Tampering_ := Tampering_ tk |}.

Definition set_Total (tk : TestKeys) (b : bool) : TestKeys :=
  let t := Tampering_ tk in
  set_Tampering tk
    {| HeaderFieldName := HeaderFieldName t;
       HeaderFieldNumber := HeaderFieldNumber t;
       HeaderFieldValue := HeaderFieldValue t;
       HeaderNameCapitalization := HeaderNameCapitalization t;
       HeaderNameDiff := HeaderNameDiff t;
       RequestLineCapitalization := RequestLineCapitalization t;
       Total := b |}.

(** [m[CanonicalHeaderKey(key)] = key] for every key of a map. *)
Definition canonical_keys {V : Type} (site : nat) (m : gmap string V) : gmap string string :=
  foldl (fun acc kv => <[CanonicalHeaderKey (fst kv) := fst kv]> acc) ∅ (range site V m).

(** [m[key]++] for every key of a map. *)
Definition count_keys {V : Type} (site : nat) (m : gmap string V)
    (acc : gmap string Z) : gmap string Z :=
  foldl (fun acc kv => <[fst kv := default 0 (acc !! fst kv) + 1]> acc) acc (range site V m).

(** FillTampering fills the tampering structure in the TestKeys based on the
    original HTTP request, the response from the test helper, and the headers
    with modified capitalisation. *)
Definition FillTampering (tk : TestKeys) (req : http.Request)
    (jsonHeaders : JSONHeaders) (headers : gmap string string) : TestKeys :=
  let t0 := Tampering_ tk in
  let requestLineCapitalization :=
    negb (String.eqb (http.Request_Method req +:+ " / HTTP/1.1") (RequestLine jsonHeaders)) in
  let headerFieldNumber :=
    negb (Nat.eqb (size headers) (size (HeadersDict jsonHeaders))) in
  let expectedHeaderKeys := canonical_keys 4 headers in
  let receivedHeaderKeys := canonical_keys 5 (HeadersDict jsonHeaders) in
  let commonHeaderKeys :=
    count_keys 7 receivedHeaderKeys (count_keys 6 expectedHeaderKeys ∅) in
  let t1 :=
    {| HeaderFieldName := HeaderFieldName t0;
       HeaderFieldNumber := headerFieldNumber;
       HeaderFieldValue := HeaderFieldValue t0;
       HeaderNameCapitalization := HeaderNameCapitalization t0;
       HeaderNameDiff := HeaderNameDiff t0;
       RequestLineCapitalization := requestLineCapitalization;
       Total := Total t0 |} in
  let t2 :=
    foldl (fun t kc =>
             let key := fst kc in
             if negb (snd kc =? 2) then t (* not in common *)
             else
               let expectedKey := default "" (expectedHeaderKeys !! key) in
               let receivedKey := default "" (receivedHeaderKeys !! key) in
               let differ := negb (String.eqb expectedKey receivedKey) in
               let expectedValue := default "" (headers !! expectedKey) in
               let receivedValue := default [] (HeadersDict jsonHeaders !! receivedKey) in
               let valueDiffers :=
                 match receivedValue with
                 | [v] => negb (String.eqb expectedValue v)
                 | _ => true
                 end in
               {| HeaderFieldName := HeaderFieldName t;
                  HeaderFieldNumber := HeaderFieldNumber t;
                  HeaderFieldValue := if valueDiffers then true else HeaderFieldValue t;
                  HeaderNameCapitalization :=
                    if differ then true else HeaderNameCapitalization t;
                  HeaderNameDiff :=
                    if differ then HeaderNameDiff t ++ [expectedKey; receivedKey]
                    else HeaderNameDiff t;
                  RequestLineCapitalization := RequestLineCapitalization t;
                  Total := Total t |})
          t1 (range 8 Z commonHeaderKeys) in
  set_Tampering tk t2.

(** *** Run *)

Definition helperName : string := "http-return-json-headers".

Definition zero_Tampering : Tampering :=
  {| HeaderFieldName := false; HeaderFieldNumber := false;
     HeaderFieldValue := false; HeaderNameCapitalization := false;
     HeaderNameDiff := []; RequestLineCapitalization := false; Total := false |}.

(** [tk := new(TestKeys); tk.Agent = "agent"; tk.Tampering.HeaderNameDiff = []string{}] *)
Definition initial_TestKeys : TestKeys :=
  {| Agent := "agent"; Failure := None; Requests := [];
     SOCKSProxy := None; Tampering_ := zero_Tampering |}.

(** [measurement.TestKeys] points to [tk]: what is written to [tk] later is
    seen through the measurement, so the test keys are stored when [Run]
    leaves. *)
Definition with_TestKeys (measurement : Measurement E) (tk : TestKeys) : Measurement E :=
  {| Extensions := Extensions measurement;
     TestHelpers := TestHelpers measurement;
     Measurement_TestKeys := Some tk |}.

Definition with_TestHelpers (measurement : Measurement E) (backend : string) : Measurement E :=
  {| Extensions := Extensions measurement;
     TestHelpers := Some {[ "backend" := backend ]};
     Measurement_TestKeys := Measurement_TestKeys measurement |}.

Definition with_Failure (e : RequestEntry) (f : option string) : RequestEntry :=
  {| RequestEntry_Failure := f; Request := Request e; Response := Response e |}.

Definition with_Response (e : RequestEntry) (r : HTTPResponse) : RequestEntry :=
  {| RequestEntry_Failure := RequestEntry_Failure e; Request := Request e; Response := r |}.

(** [req.Header.Set(key, value)] for every header, then [req.Host]. *)
Definition prepare_request (req : http.Request) (headers : gmap string string) : http.Request :=
  let header :=
    foldl (fun h kv => http.Header_Set CanonicalHeaderKey h (fst kv) (snd kv))
          (http.Request_Header req) (range 3 string headers) in
  {| http.Request_Method := http.Request_Method req;
     http.Request_URL := http.Request_URL req;
     http.Request_Header := header;
     http.Request_Host := http.Header_Get CanonicalHeaderKey header "Host" |}.

(** [txp := m.Transport; if txp == nil { ... basically: use defaults ... }] *)
Definition transport_of (m : Measurer) (headers : gmap string string) : Transport :=
  match Measurer_Transport m with
  | Some txp => txp
  | None => DefaultTransport headers
  end.

(** The two ways in which the exchange with the helper goes wrong: the
    transaction itself fails (round trip error, a status other than 200, body
    not readable), or it yields a body that does not decode. *)
Definition transaction_fails (txp : Transport) (req : http.Request) : Prop :=
  snd (snd (transact txp req)) <> None.

Definition body_not_decodable (txp : Transport) (req : http.Request) : Prop :=
  exists resp data e,
    (snd (transact txp req) = (Some resp, data, None)) /\
    (json_Unmarshal data = inr e).

(** The exchange goes well: a response with status 200, a body that reads and
    decodes. *)
Definition exchange_succeeds (txp : Transport) (req : http.Request) : Prop :=
  exists resp data jsonHeaders,
    snd (transact txp req) = (Some resp, data, None) /\
    json_Unmarshal data = inl jsonHeaders.

(** What [Run] leaves behind when it reports tampering instead of an error. *)
Definition failure_recorded (result : Outcome (Measurement E * error)) : Prop :=
  exists measurement tk,
    result = Returned (measurement, None) /\
    Measurement_TestKeys measurement = Some tk /\
    Failure tk <> None /\
    Total (Tampering_ tk) = true.

(** Run implements ExperimentMeasurer.Run.  The result is the progress
    reported through the callbacks and, unless an index or a nil pointer makes
    the call panic, the measurement as [Run] leaves it with the error
    returned. *)
Definition Run (m : Measurer) (sess : ExperimentSession) (measurement : Measurement E) :
    list Progress * Outcome (Measurement E * error) :=
  let measurement := RegisterExtensions measurement in
  let tk := initial_TestKeys in
  (* parse helper *)
  let '(helpers, ok) := GetTestHelpersByName sess helperName in
  match helpers with
  | [] => ([], Returned (with_TestKeys measurement tk, Some ErrNoAvailableTestHelpers))
  | helper :: _ =>
    if negb ok then
      ([], Returned (with_TestKeys measurement tk, Some ErrNoAvailableTestHelpers))
    else if negb (String.eqb (Type_ helper) "legacy") then
      ([], Returned (with_TestKeys measurement tk, Some ErrInvalidHelperType))
    else
      let measurement := with_TestHelpers measurement (Address helper) in
      (* prepare request *)
      match http_NewRequest "GeT" (Address helper) with
      | inr err => ([], Returned (with_TestKeys measurement tk, Some err))
      | inl req =>
        let headers := headers_of_run in
        let req := prepare_request req headers in
        (* fill tk.Requests[0] *)
        let tk := set_Requests tk (NewRequestEntryList req headers) in
        (* prepare transport *)
        let txp := transport_of m headers in
        (* round trip and read body *)
        let '(progress, (resp, data, err)) := Transact txp req in
        match Requests tk with
        | [] => (progress, Panicked "index out of range")
        | first :: others =>
          match err with
          | Some _ =>
            let tk := set_Failure tk (NewFailure err) in
            let tk := set_Requests tk (with_Failure first (Failure tk) :: others) in
            let tk := set_Total tk true in
            (* measurement did not fail, we measured tampering *)
            (progress, Returned (with_TestKeys measurement tk, None))
          | None =>
            match resp with
            | None => (progress, Panicked "nil pointer dereference")
            | Some resp =>
              (* fill tk.Requests[0].Response *)
              let tk := set_Requests tk
                          (with_Response first (NewHTTPResponse resp data) :: others) in
              (* parse response body *)
              match json_Unmarshal data with
              | inr _ =>
                let tk := set_Failure tk (Some FailureJSONParseError) in
                let tk := set_Total tk true in
                (* measurement did not fail, we measured tampering *)
                (progress, Returned (with_TestKeys measurement tk, None))
              | inl jsonHeaders =>
                (* fill tampering *)
                let tk := FillTampering tk req jsonHeaders headers in
                (progress, Returned (with_TestKeys measurement tk, None))
              end
            end
          end
        end
      end
  end.

(** *** Properties of the header lists *)

Lemma header_loop_shape {V : Type} (f : string * V -> MaybeBinaryValue)
    (l : list (string * V)) (m0 : gmap string MaybeBinaryValue) (l0 : list HTTPHeader) :
  foldl (fun out kv => add_header out (fst kv) (f kv)) (m0, l0) l =
  (foldl (fun m kv => <[fst kv := f kv]> m) m0 l,
   l0 ++ ((fun kv => {| Key := fst kv; HTTPHeader_Value := f kv |}) <$> l)).
Proof.
  revert m0 l0. induction l as [|kv l IH]; intros m0 l0; simpl.
  - by rewrite app_nil_r.
  - change (add_header (m0, l0) (fst kv) (f kv))
      with (<[fst kv := f kv]> m0, l0 ++ [{| Key := fst kv; HTTPHeader_Value := f kv |}]).
    rewrite IH. by rewrite <- app_assoc.
Qed.

Lemma insert_loop_bindings {V : Type} (f : string * V -> MaybeBinaryValue)
    (l : list (string * V)) :
  NoDup (l.*1) ->
  map_to_list (foldl (fun m kv => <[fst kv := f kv]> m) ∅ l) ≡ₚ
  (fun kv => (fst kv, f kv)) <$> l.
Proof.
  induction l as [|kv l IH] using rev_ind; intros Hnd.
  - simpl. by rewrite map_to_list_empty.
  - rewrite fmap_app in Hnd. apply NoDup_app in Hnd as (Hl & Hfresh & _).
    rewrite foldl_app, fmap_app. simpl.
    rewrite map_to_list_insert.
    + rewrite (IH Hl). apply Permutation_cons_append.
    + apply eq_None_not_Some. intros [v Hv].
      apply elem_of_map_to_list in Hv. rewrite (IH Hl) in Hv.
      apply list_elem_of_fmap in Hv as (kv' & Heq & Hin).
      injection Heq as Hk _.
      apply (Hfresh (fst kv)); [|simpl; left].
      rewrite Hk. apply list_elem_of_fmap. by exists kv'.
Qed.

Lemma header_loop_consistent {V : Type} (f : string * V -> MaybeBinaryValue)
    (l : list (string * V)) :
  NoDup (l.*1) ->
  let out := foldl (fun out kv => add_header out (fst kv) (f kv)) (∅, []) l in
  headers_consistent (fst out) (sort_by_Key (snd out)).
Proof.
  intros Hnd. rewrite header_loop_shape. simpl. split.
  - apply gosort.Slice_StronglySorted.
    rewrite <- list_fmap_compose.
    erewrite (list_fmap_ext _ fst); [exact Hnd|done].
  - unfold sort_by_Key. rewrite gosort.Slice_Permutation.
    rewrite <- list_fmap_compose, (insert_loop_bindings f l Hnd).
    reflexivity.
Qed.

Lemma range_keys_NoDup (site : nat) {V : Type} (m : gmap string V) :
  NoDup ((range site V m).*1).
Proof. rewrite range_enumerates. apply NoDup_fst_map_to_list. Qed.

(** C10: every archival request entry built by [NewRequestEntryList] and
    every archival response built by [NewHTTPResponse] has a [HeadersList]
    that is sorted in ascending order of the header key and holds exactly the
    key/value pairs of its [Headers] map. *)
Theorem C10_headers_list_sorted_with_the_pairs_of_the_map :
  (forall (req : http.Request) (headers : gmap string string) (entry : RequestEntry),
      entry ∈ NewRequestEntryList req headers ->
      headers_consistent (HTTPRequest_Headers (Request entry))
                         (HTTPRequest_HeadersList (Request entry))) /\
  (forall (resp : http.Response) (data : string),
      headers_consistent (HTTPResponse_Headers (NewHTTPResponse resp data))
                         (HTTPResponse_HeadersList (NewHTTPResponse resp data))).
Proof.
  split.
  - intros req headers entry Hin. unfold NewRequestEntryList in Hin.
    apply list_elem_of_singleton in Hin. subst entry. simpl.
    apply (header_loop_consistent (fun kv => {| Value := snd kv |})).
    apply range_keys_NoDup.
  - intros resp data. unfold NewHTTPResponse. simpl.
    apply (header_loop_consistent
             (fun kv => {| Value := http.Header_Get CanonicalHeaderKey
                                      (http.Response_Header resp) (fst kv) |})).
    apply range_keys_NoDup.
Qed.

(** *** Properties of Run *)

(** C7: in every run that gets as far as the HTTP transaction (the session
    knows a legacy helper and its address makes a request), when the
    transaction with the test helper fails, or the body the helper returns
    does not decode as JSON, [Run] returns a nil error and the failure is in
    the measurement's own test keys: [Failure] is not nil and
    [Tampering.Total] is true. *)
Theorem C7_failed_exchange_is_recorded_in_the_test_keys
    (m : Measurer) (sess : ExperimentSession) (measurement : Measurement E)
    (helper : Service) (others : list Service) (req0 : http.Request) :
  GetTestHelpersByName sess helperName = (helper :: others, true) ->
  Type_ helper = "legacy" ->
  http_NewRequest "GeT" (Address helper) = inl req0 ->
  let req := prepare_request req0 headers_of_run in
  let txp := transport_of m headers_of_run in
  transaction_fails txp req \/ body_not_decodable txp req ->
  failure_recorded (snd (Run m sess measurement)).
Proof using MaybeBuild_wraps NewFailure_of_error.
  clear MaybeBuild_nil.
  intros Hhelpers Htype Hreq req txp. subst req txp.
  unfold Run, transaction_fails, body_not_decodable, Transact.
  rewrite Hhelpers, Htype, Hreq. cbn [negb String.eqb Ascii.eqb Bool.eqb].
  destruct (transact _ _) as [progress [[resp data] err]]. cbn [snd fst].
  intros [Hfail | (resp' & data' & e & [= -> -> ->] & Hjson)].
  - destruct err as [e|]; [|done].
    destruct (MaybeBuild (Some e)) as [e'|] eqn:Hwrap; [|by apply MaybeBuild_wraps in Hwrap].
    eexists _, _. cbn. split; [reflexivity|]. split; [reflexivity|].
    split; [apply NewFailure_of_error|reflexivity].
  - destruct (MaybeBuild None) as [e'|].
    + eexists _, _. cbn. split; [reflexivity|]. split; [reflexivity|].
      split; [apply NewFailure_of_error|reflexivity].
    + cbn. rewrite Hjson.
      eexists _, _. cbn. split; [reflexivity|]. split; [reflexivity|].
      split; [discriminate|reflexivity].
Qed.

Lemma FillTampering_loop_frame (step_keys : list (string * Z))
    (g : Tampering -> string * Z -> Tampering) (t : Tampering) :
  (forall t kc, Total (g t kc) = Total t /\ HeaderFieldName (g t kc) = HeaderFieldName t) ->
  Total (foldl g t step_keys) = Total t /\
  HeaderFieldName (foldl g t step_keys) = HeaderFieldName t.
Proof.
  intros Hg. revert t. induction step_keys as [|kc l IH]; intros t; simpl; [done|].
  destruct (IH (g t kc)) as [-> ->]. apply Hg.
Qed.

Lemma FillTampering_frame
    (tk : TestKeys) (req : http.Request) (jsonHeaders : JSONHeaders)
    (headers : gmap string string) :
  let tk' := FillTampering tk req jsonHeaders headers in
  Agent tk' = Agent tk /\ Failure tk' = Failure tk /\ Requests tk' = Requests tk /\
  SOCKSProxy tk' = SOCKSProxy tk /\
  Total (Tampering_ tk') = Total (Tampering_ tk) /\
  HeaderFieldName (Tampering_ tk') = HeaderFieldName (Tampering_ tk).
Proof.
  cbv zeta. unfold FillTampering. cbn [Agent Failure Requests SOCKSProxy Tampering_ set_Tampering].
  repeat (split; [reflexivity|]).
  match goal with
  | |- context [foldl ?g ?t ?l] =>
      destruct (FillTampering_loop_frame l g t) as [-> ->]; [|done]
  end.
  intros t kc. destruct (negb (snd kc =? 2)); done.
Qed.

(** X1: [FillTampering] writes the tampering flags it computes and nothing
    else: the agent, the failure, the requests and the proxy stay as they are,
    and so do [Tampering.Total] and [Tampering.HeaderFieldName]. *)
Theorem FillTampering_leaves_Total_and_the_other_keys
    (tk : TestKeys) (req : http.Request) (jsonHeaders : JSONHeaders)
    (headers : gmap string string) :
  Agent (FillTampering tk req jsonHeaders headers) = Agent tk /\
  Failure (FillTampering tk req jsonHeaders headers) = Failure tk /\
  Requests (FillTampering tk req jsonHeaders headers) = Requests tk /\
  SOCKSProxy (FillTampering tk req jsonHeaders headers) = SOCKSProxy tk /\
  Total (Tampering_ (FillTampering tk req jsonHeaders headers)) = Total (Tampering_ tk) /\
  HeaderFieldName (Tampering_ (FillTampering tk req jsonHeaders headers))
  = HeaderFieldName (Tampering_ tk).
Proof. exact (FillTampering_frame tk req jsonHeaders headers). Qed.


(** X3: a helper whose type is not "legacy" makes [Run] return
    [ErrInvalidHelperType], again before any request is made. *)
Theorem Run_with_other_helper_type_returns_ErrInvalidHelperType
    (m : Measurer) (measurement : Measurement E) (helper : Service)
    (others : list Service) :
  Type_ helper <> "legacy" ->
  Run m {| GetTestHelpersByName := fun _ => (helper :: others, true) |} measurement =
    ([], Returned (with_TestKeys (RegisterExtensions measurement) initial_TestKeys,
                   Some ErrInvalidHelperType)).
Proof.
  intros Hty. unfold Run. cbn [GetTestHelpersByName negb].
  destruct (String.eqb_spec (Type_ helper) "legacy"); [contradiction|reflexivity].
Qed.

(** X4: [transact] returns a nil error only with the response of a round trip
    that succeeded with status 200 and whose body was read to the end; in
    every other case the response is nil and the error is not. *)
Theorem transact_nil_error_means_status_200_and_body_read
    (txp : Transport) (req : http.Request) :
  match snd (transact txp req) with
  | (Some resp, data, None) =>
      RoundTrip txp req = inl resp /\ http.StatusCode resp = 200 /\
      http.Body resp = (data, None)
  | (None, data, Some _) => data = ""
  | _ => False
  end.
Proof.
  unfold transact. destruct (RoundTrip txp req) as [resp|err]; [|done].
  destruct (Z.eqb_spec (http.StatusCode resp) 200) as [Hs|Hs]; cbn [negb]; [|done].
  destruct (http.Body resp) as [data [e|]] eqn:Hb; cbn; [reflexivity|].
  by rewrite Hb.
Qed.

(** X5: when the exchange with the helper goes well, [Run] returns nil with
    no failure recorded and with [Tampering.Total] still false: only the two
    failure paths ever set it. *)
Theorem Run_after_a_good_exchange_leaves_Total_false
    (m : Measurer) (sess : ExperimentSession) (measurement : Measurement E)
    (helper : Service) (others : list Service) (req0 : http.Request) :
  GetTestHelpersByName sess helperName = (helper :: others, true) ->
  Type_ helper = "legacy" ->
  http_NewRequest "GeT" (Address helper) = inl req0 ->
  exchange_succeeds (transport_of m headers_of_run) (prepare_request req0 headers_of_run) ->
  exists measurement' tk,
    snd (Run m sess measurement) = Returned (measurement', None) /\
    Measurement_TestKeys measurement' = Some tk /\
    Failure tk = None /\ Total (Tampering_ tk) = false.
Proof using MaybeBuild_nil.
  intros Hhelpers Htype Hreq.
  unfold Run, exchange_succeeds, Transact.
  rewrite Hhelpers, Htype, Hreq. cbn [negb String.eqb Ascii.eqb Bool.eqb].
  destruct (transact _ _) as [progress [[resp data] err]]. cbn [snd fst].
  intros (resp' & data' & jsonHeaders & [= -> -> ->] & Hjson).
  rewrite MaybeBuild_nil. cbn. rewrite Hjson.
  eexists _, _. split; [reflexivity|]. split; [reflexivity|].
  match goal with
  | |- context [FillTampering ?tk ?r ?j ?h] =>
      destruct (FillTampering_frame tk r j h) as (_ & -> & _ & _ & -> & _)
  end.
  done.
Qed.

(** *** What a run leaves behind, by the way it ends *)

(** X11: [Run] does not panic, and it returns an error only before any
    request is made: no helper, a helper that is not a legacy one, or an
    address that makes no request.  No progress was reported then and the
    test keys are the initial ones.  In every other case the error is nil,
    the helper's address is in the measurement, and the test keys hold
    exactly one request entry. *)
Theorem Run_returns_an_error_only_before_any_request
    (m : Measurer) (sess : ExperimentSession) (measurement : Measurement E) :
  match Run m sess measurement with
  | (progress, Returned (measurement', Some err)) =>
      progress = [] /\
      Measurement_TestKeys measurement' = Some initial_TestKeys /\
      (err = ErrNoAvailableTestHelpers \/ err = ErrInvalidHelperType \/
       exists helper, http_NewRequest "GeT" (Address helper) = inr err)
  | (progress, Returned (measurement', None)) =>
      exists tk entry helper others,
        GetTestHelpersByName sess helperName = (helper :: others, true) /\
        TestHelpers measurement' = Some {[ "backend" := Address helper ]} /\
        Measurement_TestKeys measurement' = Some tk /\
        Agent tk = "agent" /\ Requests tk = [entry] /\
        (length progress = 2 \/ length progress = 4)%nat
  | (_, Panicked _) => False
  end.
Proof using MaybeBuild_wraps.
  clear MaybeBuild_nil NewFailure_of_error range_enumerates.
  unfold Run, Transact, transact.
  destruct (GetTestHelpersByName sess helperName) as [[|helper others] ok]; [by auto|].
  destruct ok; cbn [negb]; [|by auto].
  destruct (String.eqb (Type_ helper) "legacy"); cbn [negb]; [|by auto].
  destruct (http_NewRequest "GeT" (Address helper)) as [req0|err] eqn:Hreq.
  2:{ split; [done|]. split; [done|]. right. right. by exists helper. }
  destruct (RoundTrip _ _) as [resp|err]; cbn -[FillTampering NewHTTPResponse].
  2:{ destruct (MaybeBuild (Some err)) eqn:Hw; [|by apply MaybeBuild_wraps in Hw].
      eexists _, _, helper, others. repeat split; auto. }
  destruct (http.StatusCode resp =? 200); cbn -[FillTampering NewHTTPResponse].
  2:{ destruct (MaybeBuild (Some ErrHTTPRequestFailed)) eqn:Hw;
        [|by apply MaybeBuild_wraps in Hw].
      eexists _, _, helper, others. repeat split; auto. }
  destruct (http.Body resp) as [data [e|]]; cbn -[FillTampering NewHTTPResponse].
  { destruct (MaybeBuild (Some e)) eqn:Hw; [|by apply MaybeBuild_wraps in Hw].
    eexists _, _, helper, others. repeat split; auto. }
  destruct (MaybeBuild None).
  { eexists _, _, helper, others. repeat split; auto. }
  destruct (json_Unmarshal data) as [jsonHeaders|e].
  2:{ eexists _, _, helper, others. repeat split; auto. }
  match goal with
  | |- context [FillTampering ?tk ?r ?j ?h] =>
      destruct (FillTampering_frame tk r j h) as (Hagent & _ & Hrequests & _)
  end.
  eexists _, _, helper, others. cbn [Measurement_TestKeys with_TestKeys TestHelpers with_TestHelpers].
  split; [done|]. split; [done|]. split; [reflexivity|].
  split; [exact Hagent|]. split; [exact Hrequests|]. auto.
Qed.

(** X12: what [Run] files in the request entry.  When the transaction fails,
    the entry carries the failure of the test keys and no response.  When the
    transaction succeeds, the entry carries the response and no failure of
    its own, also when the body does not decode: that failure is in the test
    keys only. *)
Theorem Run_files_the_failure_or_the_response_in_the_request_entry
    (m : Measurer) (sess : ExperimentSession) (measurement : Measurement E)
    (helper : Service) (others : list Service) (req0 : http.Request) :
  GetTestHelpersByName sess helperName = (helper :: others, true) ->
  Type_ helper = "legacy" ->
  http_NewRequest "GeT" (Address helper) = inl req0 ->
  match snd (Transact (transport_of m headers_of_run)
                      (prepare_request req0 headers_of_run)) with
  | (_, _, Some err) =>
      exists measurement' tk entry,
        snd (Run m sess measurement) = Returned (measurement', None) /\
        Measurement_TestKeys measurement' = Some tk /\ Requests tk = [entry] /\
        Failure tk = NewFailure (Some err) /\
        RequestEntry_Failure entry = Failure tk /\
        Response entry = zero_HTTPResponse
  | (Some resp, data, None) =>
      exists measurement' tk entry,
        snd (Run m sess measurement) = Returned (measurement', None) /\
        Measurement_TestKeys measurement' = Some tk /\ Requests tk = [entry] /\
        Failure tk = match json_Unmarshal data with
                     | inl _ => None
                     | inr _ => Some FailureJSONParseError
                     end /\
        RequestEntry_Failure entry = None /\
        Response entry = NewHTTPResponse resp data
  | (None, _, None) => exists msg, snd (Run m sess measurement) = Panicked msg
  end.
Proof using Type.
  clear MaybeBuild_nil MaybeBuild_wraps NewFailure_of_error range_enumerates.
  intros Hhelpers Htype Hreq. unfold Run.
  rewrite Hhelpers, Htype, Hreq. cbn [negb String.eqb Ascii.eqb Bool.eqb].
  destruct (Transact _ _) as [progress [[resp data] err]].
  destruct err as [err|], resp as [resp|]; cbn -[FillTampering NewHTTPResponse];
    try (eexists _, _, _; repeat split; reflexivity); [|by eexists].
  destruct (json_Unmarshal data) as [jsonHeaders|e]; cbn -[FillTampering NewHTTPResponse].
  2:{ eexists _, _, _. repeat split; reflexivity. }
  match goal with
  | |- context [FillTampering ?tk ?r ?j ?h] =>
      destruct (FillTampering_frame tk r j h) as (_ & Hfailure & Hrequests & _)
  end.
  eexists _, _, _. cbn [snd Measurement_TestKeys with_TestKeys].
  split; [reflexivity|]. split; [reflexivity|]. split; [exact Hrequests|].
  split; [exact Hfailure|]. split; reflexivity.
Qed.

(** *** What FillTampering detects *)

(** [FillTampering] only raises flags and only appends pairs of names; two
    fields it does not write at all. *)
Definition only_raises (t t' : Tampering) : Prop :=
  HeaderFieldName t' = HeaderFieldName t /\
  Total t' = Total t /\
  (HeaderFieldValue t = true -> HeaderFieldValue t' = true) /\
  (HeaderNameCapitalization t = true -> HeaderNameCapitalization t' = true) /\
  exists added,
    HeaderNameDiff t' = HeaderNameDiff t ++ added /\
    Nat.even (length added) = true /\
    (added <> [] -> HeaderNameCapitalization t' = true) /\
    (HeaderNameCapitalization t' = true ->
     HeaderNameCapitalization t = true \/ added <> []).

Lemma only_raises_refl (t : Tampering) : only_raises t t.
Proof.
  split; [done|]. split; [done|].
  split; [done|]. split; [done|]. exists []. rewrite app_nil_r.
  split; [done|]. split; [done|]. split; [done|]. by left.
Qed.

Lemma only_raises_trans (t1 t2 t3 : Tampering) :
  only_raises t1 t2 -> only_raises t2 t3 -> only_raises t1 t3.
Proof.
  intros (Hf1 & Ht1 & Hv1 & Hc1 & a1 & Hd1 & He1 & Hn1 & Hb1)
         (Hf2 & Ht2 & Hv2 & Hc2 & a2 & Hd2 & He2 & Hn2 & Hb2).
  split; [congruence|]. split; [congruence|].
  split; [auto|]. split; [auto|]. exists (a1 ++ a2).
  split; [by rewrite Hd2, Hd1, app_assoc|].
  split.
  { rewrite length_app, Nat.even_add, He1, He2. done. }
  split.
  - intros Hne. destruct a2 as [|x a2]; [|apply Hn2; done].
    rewrite app_nil_r in Hne. auto.
  - intros H3. destruct (Hb2 H3) as [H2|Hne].
    + destruct (Hb1 H2) as [H1|Hne]; [by left|]. right.
      destruct a1; [done|discriminate].
    + right. destruct a1, a2; done.
Qed.

Lemma only_raises_foldl {X : Type} (g : Tampering -> X -> Tampering) (l : list X)
    (t : Tampering) :
  (forall t x, only_raises t (g t x)) -> only_raises t (foldl g t l).
Proof.
  intros Hg. revert t. induction l as [|x l IH]; intros t; simpl.
  - apply only_raises_refl.
  - eapply only_raises_trans; [apply Hg|apply IH].
Qed.

(** The lookups of the maps [FillTampering] builds. *)
Lemma canonical_keys_loop_inv {V : Type} (l : list (string * V))
    (acc : gmap string string) (c k : string) :
  foldl (fun acc kv => <[CanonicalHeaderKey (fst kv) := fst kv]> acc) acc l !! c = Some k ->
  acc !! c = Some k \/ (k ∈ l.*1 /\ CanonicalHeaderKey k = c).
Proof.
  revert acc. induction l as [|kv l IH]; intros acc; simpl; [by left|].
  intros H. apply IH in H as [H|[Hin Hc]].
  - destruct (decide (CanonicalHeaderKey (fst kv) = c)) as [Heq|Hne].
    + rewrite <- Heq, lookup_insert_eq in H. injection H as <-.
      right. split; [left|done].
    + rewrite lookup_insert_ne in H by done. by left.
  - right. split; [by right|done].
Qed.

Lemma canonical_keys_loop_covers {V : Type} (l : list (string * V))
    (acc : gmap string string) (c : string) :
  is_Some (acc !! c) \/ (exists k, k ∈ l.*1 /\ CanonicalHeaderKey k = c) ->
  is_Some (foldl (fun acc kv => <[CanonicalHeaderKey (fst kv) := fst kv]> acc) acc l !! c).
Proof.
  revert acc. induction l as [|kv l IH]; intros acc; simpl.
  - intros [H|(k & Hin & _)]; [done|]. by apply elem_of_nil in Hin.
  - intros [H|(k & Hin & Hc)]; apply IH.
    + left. destruct (decide (CanonicalHeaderKey (fst kv) = c)) as [<-|Hne].
      * rewrite lookup_insert_eq. by eexists.
      * by rewrite lookup_insert_ne.
    + apply elem_of_cons in Hin as [->|Hin].
      * left. rewrite <- Hc, lookup_insert_eq. by eexists.
      * right. by exists k.
Qed.

Lemma range_keys (site : nat) {V : Type} (m : gmap string V) (k : string) :
  k ∈ (range site V m).*1 <-> is_Some (m !! k).
Proof.
  rewrite range_enumerates. split.
  - intros H. apply list_elem_of_fmap in H as ([k' v] & -> & Hin).
    apply elem_of_map_to_list in Hin. by eexists.
  - intros [v Hv]. apply list_elem_of_fmap. exists (k, v).
    split; [done|]. by apply elem_of_map_to_list.
Qed.

Lemma canonical_keys_inv (site : nat) {V : Type} (m : gmap string V) (c k : string) :
  canonical_keys site m !! c = Some k -> is_Some (m !! k) /\ CanonicalHeaderKey k = c.
Proof.
  unfold canonical_keys. intros H.
  apply canonical_keys_loop_inv in H as [H|[Hin Hc]]; [by rewrite lookup_empty in H|].
  split; [by apply (range_keys site)|done].
Qed.

(** When no two names of the map share a canonical form, the map of
    canonical names gives each name back. *)
Lemma canonical_keys_of_name (site : nat) {V : Type} (m : gmap string V) (k : string) :
  (forall k1 k2, is_Some (m !! k1) -> is_Some (m !! k2) ->
                 CanonicalHeaderKey k1 = CanonicalHeaderKey k2 -> k1 = k2) ->
  is_Some (m !! k) ->
  canonical_keys site m !! CanonicalHeaderKey k = Some k.
Proof.
  intros Hinj Hk.
  destruct (canonical_keys_loop_covers (range site V m) ∅ (CanonicalHeaderKey k))
    as [k' Hk'].
  { right. exists k. split; [by apply range_keys|done]. }
  fold (canonical_keys site m) in Hk'. rewrite Hk'. f_equal.
  apply canonical_keys_inv in Hk' as [Hsome Hc]. by apply Hinj.
Qed.

Lemma count_keys_loop {V : Type} (l : list (string * V)) (acc : gmap string Z)
    (key : string) :
  NoDup (l.*1) ->
  foldl (fun acc kv => <[fst kv := default 0 (acc !! fst kv) + 1]> acc) acc l !! key =
  if decide (key ∈ l.*1) then Some (default 0 (acc !! key) + 1) else acc !! key.
Proof.
  revert acc. induction l as [|kv l IH]; intros acc Hnd.
  - cbn [foldl fmap list_fmap]. case_decide as Hin; [|done]. by apply elem_of_nil in Hin.
  - cbn [foldl fmap list_fmap] in *.
    apply NoDup_cons in Hnd as [Hfresh Hnd]. rewrite IH by done.
    destruct (decide (key = fst kv)) as [->|Hne].
    + rewrite lookup_insert_eq. repeat case_decide; try done.
      exfalso. match goal with H : _ ∉ _ :: _ |- _ => apply H; left end.
    + rewrite lookup_insert_ne by done.
      repeat case_decide; try done.
      * exfalso. match goal with H : _ ∉ _ :: _ |- _ => apply H; by right end.
      * match goal with H : _ ∈ _ :: _ |- _ => apply elem_of_cons in H as [?|?]; done end.
Qed.

Lemma count_keys_lookup (site : nat) {V : Type} (m : gmap string V)
    (acc : gmap string Z) (key : string) :
  count_keys site m acc !! key =
  match m !! key with
  | Some _ => Some (default 0 (acc !! key) + 1)
  | None => acc !! key
  end.
Proof.
  unfold count_keys. rewrite count_keys_loop by apply range_keys_NoDup.
  destruct (decide (key ∈ (range site V m).*1)) as [Hin|Hnin].
  - apply range_keys in Hin as [v ->]. done.
  - destruct (m !! key) eqn:Hm; [|done].
    destruct Hnin. apply range_keys. by eexists.
Qed.

Lemma foldl_unchanged {X : Type} (g : Tampering -> X -> Tampering) (l : list X)
    (t : Tampering) :
  (forall t x, x ∈ l -> g t x = t) -> foldl g t l = t.
Proof.
  revert t. induction l as [|x l IH]; intros t Hg; simpl; [done|].
  rewrite Hg by left. apply IH. intros t' x' Hin. apply Hg. by right.
Qed.

Lemma foldl_passes {X : Type} (g : Tampering -> X -> Tampering) (l : list X)
    (t : Tampering) (x : X) :
  (forall t x, only_raises t (g t x)) ->
  x ∈ l ->
  exists t1, only_raises (g t1 x) (foldl g t l).
Proof.
  intros Hg. revert t. induction l as [|y l IH]; intros t Hin; simpl.
  - by apply elem_of_nil in Hin.
  - apply elem_of_cons in Hin as [->|Hin].
    + exists t. by apply only_raises_foldl.
    + by apply IH.
Qed.

(** X13: [FillTampering] never clears what was flagged before:
    [HeaderFieldName] and [Total] are untouched, the value and capitalisation
    flags stay set once set, names are only appended to [HeaderNameDiff],
    always an even number of them, and the capitalisation flag changes only
    if names were appended. *)
Theorem FillTampering_only_raises_flags_and_appends_pairs_of_names
    (tk : TestKeys) (req : http.Request) (jsonHeaders : JSONHeaders)
    (headers : gmap string string) :
  only_raises (Tampering_ tk) (Tampering_ (FillTampering tk req jsonHeaders headers)).
Proof using Type.
  clear MaybeBuild_nil MaybeBuild_wraps NewFailure_of_error range_enumerates.
  unfold FillTampering. cbn [Tampering_ set_Tampering].
  match goal with
  | |- only_raises _ (foldl ?g ?t1 ?l) =>
      apply (only_raises_trans _ t1); [|apply (only_raises_foldl g l t1)]
  end.
  - split; [done|]. split; [done|].
    split; [done|]. split; [done|]. exists []. cbn. rewrite app_nil_r.
    split; [done|]. split; [done|]. split; [done|]. by left.
  - intros t kc. destruct (negb (snd kc =? 2)); [apply only_raises_refl|].
    destruct (negb (String.eqb _ _)).
    + split; [done|]. split; [done|].
      split; [cbn; by destruct (match _ with [] => _ | _ => _ end)|].
      split; [done|]. eexists [_; _]. cbn.
      split; [done|]. split; [done|]. split; [done|]. by right.
    + split; [done|]. split; [done|].
      split; [cbn; by destruct (match _ with [] => _ | _ => _ end)|].
      split; [done|]. exists []. cbn. rewrite app_nil_r.
      split; [done|]. split; [done|]. split; [done|]. by left.
Qed.

(** X14: a helper that echoes the request raises nothing.  When the helper
    reports the request line as sent and every header under the name and
    with the value it was sent (names that differ in their canonical form),
    [FillTampering] sets the number and request line flags to false, leaves
    the value and capitalisation flags as they were and appends no name. *)
Theorem FillTampering_of_an_exact_echo_raises_nothing
    (tk : TestKeys) (req : http.Request) (jsonHeaders : JSONHeaders)
    (headers : gmap string string) :
  (forall k1 k2, is_Some (headers !! k1) -> is_Some (headers !! k2) ->
                 CanonicalHeaderKey k1 = CanonicalHeaderKey k2 -> k1 = k2) ->
  HeadersDict jsonHeaders = (fun v => [v]) <$> headers ->
  RequestLine jsonHeaders = http.Request_Method req +:+ " / HTTP/1.1" ->
  let before := Tampering_ tk in
  let after := Tampering_ (FillTampering tk req jsonHeaders headers) in
  HeaderFieldNumber after = false /\
  RequestLineCapitalization after = false /\
  HeaderFieldValue after = HeaderFieldValue before /\
  HeaderNameCapitalization after = HeaderNameCapitalization before /\
  HeaderNameDiff after = HeaderNameDiff before.
Proof using range_enumerates.
  clear MaybeBuild_nil MaybeBuild_wraps NewFailure_of_error.
  intros Hinj Hdict Hline. cbv zeta.
  assert (Hinj' : forall k1 k2,
             is_Some (HeadersDict jsonHeaders !! k1) ->
             is_Some (HeadersDict jsonHeaders !! k2) ->
             CanonicalHeaderKey k1 = CanonicalHeaderKey k2 -> k1 = k2).
  { intros k1 k2. rewrite Hdict, !lookup_fmap, !fmap_is_Some. apply Hinj. }
  unfold FillTampering. cbn [Tampering_ set_Tampering].
  rewrite foldl_unchanged.
  { cbn. rewrite Hline, String.eqb_refl, Hdict, map_size_fmap, Nat.eqb_refl. done. }
  intros t [c n] Hin. cbn [fst snd].
  destruct (negb (n =? 2)); [done|].
  assert (Hc : exists k v, headers !! k = Some v /\ CanonicalHeaderKey k = c).
  { apply (elem_of_Permutation_proper _ _ _ (range_enumerates 8 Z _)) in Hin.
    apply elem_of_map_to_list in Hin.
    rewrite !count_keys_lookup, lookup_empty in Hin.
    destruct (canonical_keys 5 (HeadersDict jsonHeaders) !! c) as [k|] eqn:Hr.
    - apply canonical_keys_inv in Hr as [[vs Hvs] Hk].
      rewrite Hdict, lookup_fmap in Hvs.
      destruct (headers !! k) as [v|] eqn:Hv; [|done]. by exists k, v.
    - destruct (canonical_keys 4 headers !! c) as [k|] eqn:He; [|done].
      apply canonical_keys_inv in He as [[v Hv] Hk]. by exists k, v. }
  destruct Hc as (k & v & Hv & <-).
  rewrite (canonical_keys_of_name 4 headers k Hinj) by (by eexists).
  rewrite (canonical_keys_of_name 5 (HeadersDict jsonHeaders) k Hinj')
    by (rewrite Hdict, lookup_fmap, Hv; by eexists).
  change (default "" (Some k)) with k.
  rewrite String.eqb_refl, Hv, Hdict, lookup_fmap, Hv.
  cbn. rewrite String.eqb_refl. by destruct t.
Qed.

(** X15: what the helper reports differently is flagged.  For a header sent
    as [k] with value [v] that the helper reports under the name [k'] of the
    same canonical form with the values [vs] (no two sent names and no two
    reported names sharing a canonical form): if the names differ, the
    capitalisation flag is raised and both names are in [HeaderNameDiff]; if
    the helper does not report exactly the one value sent, the value flag is
    raised. *)
Theorem FillTampering_flags_a_changed_name_and_a_changed_value
    (tk : TestKeys) (req : http.Request) (jsonHeaders : JSONHeaders)
    (headers : gmap string string) (k k' v : string) (vs : list string) :
  (forall k1 k2, is_Some (headers !! k1) -> is_Some (headers !! k2) ->
                 CanonicalHeaderKey k1 = CanonicalHeaderKey k2 -> k1 = k2) ->
  (forall k1 k2, is_Some (HeadersDict jsonHeaders !! k1) ->
                 is_Some (HeadersDict jsonHeaders !! k2) ->
                 CanonicalHeaderKey k1 = CanonicalHeaderKey k2 -> k1 = k2) ->
  headers !! k = Some v ->
  HeadersDict jsonHeaders !! k' = Some vs ->
  CanonicalHeaderKey k = CanonicalHeaderKey k' ->
  let after := Tampering_ (FillTampering tk req jsonHeaders headers) in
  (k <> k' ->
   HeaderNameCapitalization after = true /\
   k ∈ HeaderNameDiff after /\ k' ∈ HeaderNameDiff after) /\
  (vs <> [v] -> HeaderFieldValue after = true).
Proof using range_enumerates.
  clear MaybeBuild_nil MaybeBuild_wraps NewFailure_of_error.
  intros Hinj Hinj' Hv Hvs Hcanon. cbv zeta.
  unfold FillTampering. cbn [Tampering_ set_Tampering].
  set (c := CanonicalHeaderKey k).
  assert (He : canonical_keys 4 headers !! c = Some k).
  { apply canonical_keys_of_name; [done|by eexists]. }
  assert (Hr : canonical_keys 5 (HeadersDict jsonHeaders) !! c = Some k').
  { unfold c. rewrite Hcanon. apply canonical_keys_of_name; [done|by eexists]. }
  match goal with
  | |- context [foldl ?g ?t1 ?l] =>
      destruct (foldl_passes g l t1 (c, 2)) as (t & _ & _ & Hv' & Hc' & added & Hd' & _)
  end.
  { intros t kc. destruct (negb (snd kc =? 2)); [apply only_raises_refl|].
    destruct (negb (String.eqb _ _)).
    + split; [done|]. split; [done|].
      split; [cbn; by destruct (match _ with [] => _ | _ => _ end)|].
      split; [done|]. eexists [_; _]. cbn.
      split; [done|]. split; [done|]. split; [done|]. by right.
    + split; [done|]. split; [done|].
      split; [cbn; by destruct (match _ with [] => _ | _ => _ end)|].
      split; [done|]. exists []. cbn. rewrite app_nil_r.
      split; [done|]. split; [done|]. split; [done|]. by left. }
  { apply (elem_of_Permutation_proper _ _ _ (range_enumerates 8 Z _)).
    apply elem_of_map_to_list.
    by rewrite !count_keys_lookup, lookup_empty, He, Hr. }
  cbn [fst snd Z.eqb Pos.eqb negb] in Hv', Hc', Hd'.
  rewrite He, Hr in Hv', Hc', Hd'.
  change (default "" (Some k)) with k in Hv', Hc', Hd'.
  change (default "" (Some k')) with k' in Hv', Hc', Hd'.
  rewrite Hv, Hvs in Hv'.
  change (default "" (Some v)) with v in Hv'.
  change (default [] (Some vs)) with vs in Hv'.
  split.
  - intros Hne. destruct (String.eqb_spec k k') as [?|_]; [done|].
    cbn in Hc', Hd'. split; [by apply Hc'|].
    rewrite Hd'. split; apply elem_of_app; left; apply elem_of_app; right.
    + left.
    + right. left.
  - intros Hne. apply Hv'. cbn.
    destruct vs as [|v' [|? ?]]; [done| |done].
    destruct (String.eqb_spec v v') as [->|_]; done.
Qed.

(** *** Dialer and Conn *)

Context (selfcensor_DefaultDialer : NetDialer).

(** DialContext dials a specific connection and arranges such that headers in
    the outgoing request are transformed. *)
Definition DialContext (d : Dialer) (network address : string) : option Conn * error :=
  let dialer := match Dialer_Dialer d with
                | Some dialer => dialer
                | None => selfcensor_DefaultDialer
                end in
  match dialer network address with
  | inr err => (None, Some err)
  | inl conn => (Some {| Conn_Conn := conn; Conn_Headers := Dialer_Headers d |}, None)
  end.

(** The loop of [Write]: for every key of the table, the first instance of
    its canonical form followed by a colon is replaced by the key followed by
    a colon. *)
Definition restore_capitalization (headers : gmap string string) (b : string) : string :=
  foldl (fun b kv =>
           gobytes.Replace1 b (CanonicalHeaderKey (fst kv) +:+ ":") (fst kv +:+ ":"))
        b (range 9 string headers).

(** Write implements Conn.Write. *)
Definition Conn_Write (c : Conn) (b : string) : Z * error :=
  NetConn_Write (Conn_Conn c) (restore_capitalization (Conn_Headers c) b).

Lemma restore_capitalization_loop (P : string -> Prop) (headers : gmap string string)
    (b : string) :
  P b ->
  (forall key b', is_Some (headers !! key) -> P b' ->
     P (gobytes.Replace1 b' (CanonicalHeaderKey key +:+ ":") (key +:+ ":"))) ->
  P (restore_capitalization headers b).
Proof using range_enumerates.
  clear MaybeBuild_nil MaybeBuild_wraps NewFailure_of_error.
  intros Hb Hstep. unfold restore_capitalization.
  assert (Hin : forall kv, kv ∈ range 9 string headers -> is_Some (headers !! fst kv)).
  { intros [k v] Hkv. rewrite range_enumerates in Hkv.
    apply elem_of_map_to_list in Hkv. by exists v. }
  revert b Hb. induction (range 9 string headers) as [|kv l IH]; intros b Hb; [done|].
  cbn [foldl]. apply IH.
  - intros kv' Hkv'. apply Hin. by right.
  - apply Hstep; [|done]. apply Hin. by left.
Qed.

(** X16: a buffer in which no name is to be restored reaches the connection
    as it is.  When every key of the table is its own canonical form, or its
    canonical form followed by a colon is nowhere in the buffer, [Write]
    hands the buffer on unchanged. *)
Theorem Write_hands_on_a_buffer_with_no_name_to_restore (c : Conn) (b : string) :
  (forall key, is_Some (Conn_Headers c !! key) ->
     CanonicalHeaderKey key = key \/
     gobytes.Contains b (CanonicalHeaderKey key +:+ ":") = false) ->
  Conn_Write c b = NetConn_Write (Conn_Conn c) b.
Proof using range_enumerates.
  clear MaybeBuild_nil MaybeBuild_wraps NewFailure_of_error.
  intros Hkeys. unfold Conn_Write. f_equal.
  apply (restore_capitalization_loop (fun b' => b' = b)); [done|].
  intros key b' Hkey ->.
  destruct (Hkeys key Hkey) as [-> | Habsent].
  - apply gobytes.Replace1_same.
  - by apply gobytes.Replace1_absent.
Qed.

(** X17: [Write] never changes the size of what is written.  When putting a
    name in canonical form keeps its length, the buffer the connection below
    receives is as long as the buffer given, so the count that connection
    returns counts the caller's bytes. *)
Theorem Write_keeps_the_length_of_the_buffer (c : Conn) (b : string) :
  (forall key, is_Some (Conn_Headers c !! key) ->
     String.length (CanonicalHeaderKey key) = String.length key) ->
  exists b', Conn_Write c b = NetConn_Write (Conn_Conn c) b' /\
             String.length b' = String.length b.
Proof using range_enumerates.
  clear MaybeBuild_nil MaybeBuild_wraps NewFailure_of_error.
  intros Hlen. eexists. split; [reflexivity|].
  apply (restore_capitalization_loop (fun b' => String.length b' = String.length b));
    [done|].
  intros key b' Hkey <-. apply gobytes.Replace1_length.
  by rewrite !gobytes.length_app, (Hlen key Hkey).
Qed.

(** X18: a connection dialed through a [Dialer] with one header writes the
    request with the header's name as the table has it.  The dialer in use is
    the one given, or the default one when none is given; when it connects,
    [DialContext] returns a connection with a nil error, and a buffer whose
    first canonical name followed by a colon stands after [pre] reaches the
    dialed connection with that name replaced by the key. *)
Theorem Write_after_DialContext_restores_the_name_of_the_header
    (d : Dialer) (conn : NetConn) (network address key value pre post : string) :
  match Dialer_Dialer d with
  | Some dialer => dialer
  | None => selfcensor_DefaultDialer
  end network address = inl conn ->
  Dialer_Headers d = {[ key := value ]} ->
  gobytes.Contains (pre +:+ CanonicalHeaderKey key) (CanonicalHeaderKey key +:+ ":") = false ->
  exists c,
    DialContext d network address = (Some c, None) /\
    Conn_Write c (pre +:+ (CanonicalHeaderKey key +:+ ":") +:+ post) =
    NetConn_Write conn (pre +:+ (key +:+ ":") +:+ post).
Proof using range_enumerates.
  clear MaybeBuild_nil MaybeBuild_wraps NewFailure_of_error.
  intros Hdial Hheaders Hfirst. unfold DialContext. rewrite Hdial.
  eexists. split; [reflexivity|].
  unfold Conn_Write, restore_capitalization. cbn [Conn_Conn Conn_Headers]. f_equal.
  rewrite Hheaders.
  pose proof (range_enumerates 9 string {[ key := value ]}) as Hrange.
  rewrite map_to_list_singleton in Hrange.
  apply Permutation_singleton_r in Hrange. rewrite Hrange. cbn [foldl fst].
  apply gobytes.Replace1_first.
  - by destruct (CanonicalHeaderKey key).
  - by rewrite gobytes.init_snoc.
Qed.

(** *** What the header maps hold *)

Lemma insert_loop_lookup {V : Type} (f : string * V -> MaybeBinaryValue)
    (l : list (string * V)) (key : string) (mbv : MaybeBinaryValue) :
  NoDup (l.*1) ->
  foldl (fun m kv => <[fst kv := f kv]> m) (∅ : gmap string MaybeBinaryValue) l !! key
    = Some mbv <->
  exists v, (key, v) ∈ l /\ mbv = f (key, v).
Proof.
  intros Hnd. rewrite <- elem_of_map_to_list, (insert_loop_bindings f l Hnd).
  rewrite list_elem_of_fmap. split.
  - intros ([k v] & [= -> ->] & Hin). by exists v.
  - intros (v & Hin & ->). by exists (key, v).
Qed.

Lemma header_loop_lookup {V : Type} (site : nat) (f : string * V -> MaybeBinaryValue)
    (m : gmap string V) (key : string) :
  fst (foldl (fun out kv => add_header out (fst kv) (f kv)) (∅, []) (range site V m)) !! key
  = (fun v => f (key, v)) <$> (m !! key).
Proof using range_enumerates.
  clear MaybeBuild_nil MaybeBuild_wraps NewFailure_of_error.
  rewrite header_loop_shape. cbn [fst].
  apply option_eq. intros mbv.
  rewrite (insert_loop_lookup f _ key mbv (range_keys_NoDup site m)).
  rewrite fmap_Some. split.
  - intros (v & Hin & ->). exists v. split; [|done].
    rewrite range_enumerates in Hin. by apply elem_of_map_to_list in Hin.
  - intros (v & Hm & ->). exists v. split; [|done].
    rewrite range_enumerates. by apply elem_of_map_to_list.
Qed.

(** X19: what the two header maps hold.  The request entry has every header
    of the table under the name the table gives it, capitalisation included,
    with its value, and nothing else.  The archived response has an entry for
    every name of the response's header and no other; its value is what
    [Header.Get] finds for that name, which for a name in canonical form is
    the first of the header's values, or the empty string when there is
    none: further values of a header are not archived. *)
Theorem header_maps_hold_each_name_once_with_one_value :
  (forall (req : http.Request) (headers : gmap string string) (entry : RequestEntry),
      entry ∈ NewRequestEntryList req headers ->
      HTTPRequest_Headers (Request entry) = (fun v => {| Value := v |}) <$> headers) /\
  (forall (resp : http.Response) (data key : string),
      HTTPResponse_Headers (NewHTTPResponse resp data) !! key =
      (fun _ => {| Value := http.Header_Get CanonicalHeaderKey
                              (http.Response_Header resp) key |})
        <$> (http.Response_Header resp !! key)) /\
  (forall (resp : http.Response) (data key : string) (values : list string),
      http.Response_Header resp !! key = Some values ->
      CanonicalHeaderKey key = key ->
      HTTPResponse_Headers (NewHTTPResponse resp data) !! key =
      Some {| Value := default "" (head values) |}).
Proof using range_enumerates.
  clear MaybeBuild_nil MaybeBuild_wraps NewFailure_of_error.
  assert (Hresp : forall (resp : http.Response) (data key : string),
      HTTPResponse_Headers (NewHTTPResponse resp data) !! key =
      (fun _ => {| Value := http.Header_Get CanonicalHeaderKey
                              (http.Response_Header resp) key |})
        <$> (http.Response_Header resp !! key)).
  { intros resp data key. unfold NewHTTPResponse. cbn [HTTPResponse_Headers].
    apply (header_loop_lookup 2
             (fun kv => {| Value := http.Header_Get CanonicalHeaderKey
                                      (http.Response_Header resp) (fst kv) |})). }
  split; [|split; [exact Hresp|]].
  - intros req headers entry Hin. unfold NewRequestEntryList in Hin.
    apply list_elem_of_singleton in Hin. subst entry.
    cbn [Request HTTPRequest_Headers].
    apply map_eq. intros key. rewrite lookup_fmap.
    apply (header_loop_lookup 1 (fun kv => {| Value := snd kv |})).
  - intros resp data key values Hkey Hcanon. rewrite Hresp, Hkey. cbn.
    unfold http.Header_Get. rewrite Hcanon, Hkey. by destruct values.
Qed.

Lemma header_loop_determined {V : Type} (f : string * V -> MaybeBinaryValue)
    (l l' : list (string * V)) :
  NoDup (l.*1) -> l ≡ₚ l' ->
  let out := foldl (fun out kv => add_header out (fst kv) (f kv)) (∅, []) l in
  let out' := foldl (fun out kv => add_header out (fst kv) (f kv)) (∅, []) l' in
  fst out = fst out' /\ sort_by_Key (snd out) = sort_by_Key (snd out').
Proof.
  intros Hnd Hperm. cbv zeta. rewrite !header_loop_shape. cbn [fst snd app].
  assert (Hnd' : NoDup (l'.*1)) by by rewrite <- Hperm.
  split.
  - apply map_eq. intros key. apply option_eq. intros mbv.
    rewrite (insert_loop_lookup f l key mbv Hnd), (insert_loop_lookup f l' key mbv Hnd').
    by setoid_rewrite Hperm.
  - apply (StronglySorted_unique_strong (gosort.lt_key Key)).
    + intros a b _ _ Hab Hba. destruct (gostring.lt_irrefl (Key a)).
      by apply (gostring.lt_trans _ (Key b)).
    + apply gosort.Slice_StronglySorted.
      rewrite <- list_fmap_compose. erewrite (list_fmap_ext _ fst); [exact Hnd|done].
    + apply gosort.Slice_StronglySorted.
      rewrite <- list_fmap_compose. erewrite (list_fmap_ext _ fst); [exact Hnd'|done].
    + unfold sort_by_Key. rewrite !gosort.Slice_Permutation. by rewrite Hperm.
Qed.

(** *** The request that is sent *)

Lemma Header_Set_loop (l : list (string * string)) (h : http.Header) (c : string) :
  let h' := foldl (fun h kv => http.Header_Set CanonicalHeaderKey h (fst kv) (snd kv)) h l in
  ((forall kv, kv ∈ l -> CanonicalHeaderKey (fst kv) <> c) -> h' !! c = h !! c) /\
  (forall kv, kv ∈ l -> CanonicalHeaderKey (fst kv) = c ->
     (forall kv', kv' ∈ l -> CanonicalHeaderKey (fst kv') = c -> kv' = kv) ->
     h' !! c = Some [snd kv]).
Proof.
  cbv zeta. induction l as [|kv0 l IH] using rev_ind.
  - split; [done|]. intros kv Hin. by apply elem_of_nil in Hin.
  - rewrite foldl_app. cbn [foldl]. unfold http.Header_Set at 1 3.
    destruct IH as [IHout IHin]. split.
    + intros Hout. rewrite lookup_insert_ne.
      * apply IHout. intros kv Hkv. apply Hout. apply elem_of_app. by left.
      * apply Hout. apply elem_of_app. right. by apply list_elem_of_singleton.
    + intros kv Hkv Hc Huniq.
      destruct (decide (CanonicalHeaderKey (fst kv0) = c)) as [Hc0|Hc0].
      * rewrite Hc0, lookup_insert_eq.
        rewrite <- (Huniq kv0); [done| |done].
        apply elem_of_app. right. by apply list_elem_of_singleton.
      * rewrite lookup_insert_ne by done.
        apply elem_of_app in Hkv as [Hkv|Hkv].
        -- apply IHin; [done|done|]. intros kv' Hkv' Hc'. apply Huniq; [|done].
           apply elem_of_app. by left.
        -- apply list_elem_of_singleton in Hkv. by subst kv0.
Qed.

(** X20: the request [Run] prepares.  When no two headers of the table share
    a canonical name, the request's header holds every header of the table
    under its canonical name with its one value, names that are the
    canonical form of no header of the table are as the new request had
    them, the method and the URL are untouched, and [Host] is the value of
    the header whose canonical name is that of "Host". *)
Theorem prepare_request_files_each_header_under_its_canonical_name
    (req : http.Request) (headers : gmap string string) :
  (forall k1 k2, is_Some (headers !! k1) -> is_Some (headers !! k2) ->
                 CanonicalHeaderKey k1 = CanonicalHeaderKey k2 -> k1 = k2) ->
  let req' := prepare_request req headers in
  (forall k v, headers !! k = Some v ->
     http.Request_Header req' !! CanonicalHeaderKey k = Some [v]) /\
  (forall c, (forall k, is_Some (headers !! k) -> CanonicalHeaderKey k <> c) ->
     http.Request_Header req' !! c = http.Request_Header req !! c) /\
  http.Request_Method req' = http.Request_Method req /\
  http.Request_URL req' = http.Request_URL req /\
  (forall k v, headers !! k = Some v ->
     CanonicalHeaderKey k = CanonicalHeaderKey "Host" -> http.Request_Host req' = v).
Proof using range_enumerates.
  clear MaybeBuild_nil MaybeBuild_wraps NewFailure_of_error.
  intros Hinj. cbv zeta. unfold prepare_request.
  cbn [http.Request_Header http.Request_Method http.Request_URL http.Request_Host].
  assert (Hin : forall kv, kv ∈ range 3 string headers <-> headers !! fst kv = Some (snd kv)).
  { intros [k v]. rewrite range_enumerates. apply elem_of_map_to_list. }
  assert (Hfiled : forall k v, headers !! k = Some v ->
            foldl (fun h kv => http.Header_Set CanonicalHeaderKey h (fst kv) (snd kv))
                  (http.Request_Header req) (range 3 string headers)
              !! CanonicalHeaderKey k = Some [v]).
  { intros k v Hk.
    destruct (Header_Set_loop (range 3 string headers) (http.Request_Header req)
                (CanonicalHeaderKey k)) as [_ Hloop].
    apply (Hloop (k, v)); [by apply Hin|done|].
    intros [k' v'] Hkv' Hc. apply Hin in Hkv'. cbn [fst snd] in Hkv', Hc.
    assert (k' = k) as -> by (apply Hinj; [by exists v'|by exists v|done]).
    congruence. }
  split; [exact Hfiled|]. split; [|split; [done|split; [done|]]].
  - intros c Hc.
    destruct (Header_Set_loop (range 3 string headers) (http.Request_Header req) c)
      as [Hloop _].
    apply Hloop. intros [k v] Hkv. apply Hin in Hkv. apply Hc. by exists v.
  - intros k v Hk Hhost. unfold http.Header_Get. by rewrite <- Hhost, (Hfiled k v Hk).
Qed.

End with_environment.

(** *** A concrete environment

    The doubles a unit test of the package would use: maps are enumerated in
    the order of their internal representation, errors are wrapped as they
    are, the helper is a legacy one and the transport either refuses the
    connection or answers with a fixed response. *)

Definition stored_order (site : nat) (V : Type) (m : gmap string V) : list (string * V) :=
  map_to_list m.

Definition describe (err : error) : string :=
  match err with
  | Some (ErrForeign description) => description
  | Some _ => "error"
  | None => "<nil>"
  end.

Definition failure_string (err : error) : option string :=
  match err with
  | Some e => Some (describe (Some e))
  | None => None
  end.

Definition undecodable (data : string) : JSONHeaders + Err := inr ErrSyntax.

Definition decode_as_empty (data : string) : JSONHeaders + Err :=
  inl {| HeadersDict := ∅; RequestLine := "GeT / HTTP/1.1" |}.

Definition plain_request (method url : string) : http.Request + Err :=
  inl {| http.Request_Method := method; http.Request_URL := url;
         http.Request_Header := ∅; http.Request_Host := "" |}.

Definition sent_headers : gmap string string :=
  {[ "hOSt" := "abcdefghijklmno.com"; "aCCePT" := "*/*" ]}.

Definition refusing : Transport :=
  {| RoundTrip := fun _ => inr (ErrForeign "connection_refused") |}.

Definition answer : http.Response :=
  {| http.StatusCode := 200;
     http.Response_Header := {[ "Content-Type" := ["application/json"];
                                "Content-Length" := ["2"] ]};
     http.Body := ("{}", None) |}.

Definition answering : Transport := {| RoundTrip := fun _ => inl answer |}.

Definition legacy_helper (name : string) : list Service * bool :=
  ([ {| Address := "http://37.218.241.94:80"; Type_ := "legacy" |} ], true).

Definition other_helper : Service :=
  {| Address := "https://wcth.ooni.io"; Type_ := "https" |}.

Definition empty_measurement : Measurement unit :=
  {| Extensions := tt; TestHelpers := None; Measurement_TestKeys := None |}.

Lemma stored_order_enumerates (site : nat) (V : Type) (m : gmap string V) :
  stored_order site V m ≡ₚ map_to_list m.
Proof. reflexivity. Qed.

(** C10 at the headers of an example request and an example response. *)
Lemma C10_witness :
  (forall entry : RequestEntry,
      entry ∈ NewRequestEntryList stored_order
                {| http.Request_Method := "GeT"; http.Request_URL := "http://37.218.241.94:80";
                   http.Request_Header := ∅; http.Request_Host := "" |} sent_headers ->
      headers_consistent (HTTPRequest_Headers (Request entry))
                         (HTTPRequest_HeadersList (Request entry))) /\
  headers_consistent
    (HTTPResponse_Headers (NewHTTPResponse stored_order id answer "{}"))
    (HTTPResponse_HeadersList (NewHTTPResponse stored_order id answer "{}")).
Proof.
  pose proof (C10_headers_list_sorted_with_the_pairs_of_the_map
                stored_order id stored_order_enumerates) as [Hreq Hresp].
  split; [apply Hreq | apply Hresp].
Defined.

(** C7 at a transport that refuses the connection, and at one whose answer
    does not decode. *)
Lemma C7_witness :
  failure_recorded
    (snd (Run stored_order id describe id failure_string "json_parse_error"
              undecodable plain_request sent_headers (fun _ => refusing) id
              {| Measurer_Transport := None |}
              {| GetTestHelpersByName := legacy_helper |}
              empty_measurement)) /\
  failure_recorded
    (snd (Run stored_order id describe id failure_string "json_parse_error"
              undecodable plain_request sent_headers (fun _ => refusing) id
              {| Measurer_Transport := Some answering |}
              {| GetTestHelpersByName := legacy_helper |}
              empty_measurement)).
Proof.
  split.
  - eapply C7_failed_exchange_is_recorded_in_the_test_keys;
      [discriminate | discriminate | reflexivity | reflexivity | reflexivity
      | left; discriminate].
  - eapply C7_failed_exchange_is_recorded_in_the_test_keys;
      [discriminate | discriminate | reflexivity | reflexivity | reflexivity | right].
    exists answer, "{}", ErrSyntax. split; reflexivity.
Defined.

(** X3 at a helper of type https. *)
Lemma Run_with_other_helper_type_witness :
  Run stored_order id describe id failure_string "json_parse_error"
      undecodable plain_request sent_headers (fun _ => refusing) id
      {| Measurer_Transport := None |}
      {| GetTestHelpersByName := fun _ => ([other_helper], true) |}
      empty_measurement =
  ([], Returned (with_TestKeys empty_measurement initial_TestKeys,
                 Some ErrInvalidHelperType)).
Proof.
  apply (Run_with_other_helper_type_returns_ErrInvalidHelperType
           stored_order id describe id failure_string "json_parse_error"
           undecodable plain_request sent_headers (fun _ => refusing) id).
  discriminate.
Defined.

(** X5 at a helper that answers 200 with a body that decodes. *)
Lemma Run_after_a_good_exchange_witness :
  exists measurement' tk,
    snd (Run stored_order id describe id failure_string "json_parse_error"
             decode_as_empty plain_request sent_headers (fun _ => answering) id
             {| Measurer_Transport := None |}
             {| GetTestHelpersByName := legacy_helper |}
             empty_measurement) = Returned (measurement', None) /\
    Measurement_TestKeys measurement' = Some tk /\
    Failure tk = None /\ Total (Tampering_ tk) = false.
Proof.
  eapply Run_after_a_good_exchange_leaves_Total_false;
    [reflexivity | reflexivity | reflexivity | reflexivity |].
  exists answer, "{}", {| HeadersDict := ∅; RequestLine := "GeT / HTTP/1.1" |}.
  split; reflexivity.
Defined.

(** *** The order of enumeration *)

(** X21: the archived headers do not depend on the order in which the maps
    are enumerated.  Whatever order [range] takes on each run, the request
    entries of [NewRequestEntryList] and the response of [NewHTTPResponse]
    are the same: the maps are filled key by key and the lists are sorted. *)
Theorem archived_headers_do_not_depend_on_the_enumeration_order
    (range range' : nat -> forall V : Type, gmap string V -> list (string * V))
    (CanonicalHeaderKey : string -> string) :
  (forall (site : nat) (V : Type) (m : gmap string V), range site V m ≡ₚ map_to_list m) ->
  (forall (site : nat) (V : Type) (m : gmap string V), range' site V m ≡ₚ map_to_list m) ->
  (forall (req : http.Request) (headers : gmap string string),
      NewRequestEntryList range req headers = NewRequestEntryList range' req headers) /\
  (forall (resp : http.Response) (data : string),
      NewHTTPResponse range CanonicalHeaderKey resp data =
      NewHTTPResponse range' CanonicalHeaderKey resp data).
Proof.
  intros Hr Hr'. split.
  - intros req headers. unfold NewRequestEntryList.
    destruct (header_loop_determined (fun kv => {| Value := snd kv |})
                (range 1%nat string headers) (range' 1%nat string headers)) as [Hm Hl].
    + rewrite Hr. apply NoDup_fst_map_to_list.
    + by rewrite Hr, Hr'.
    + cbv beta zeta in Hm, Hl |- *. by rewrite Hm, Hl.
  - intros resp data. unfold NewHTTPResponse.
    destruct (header_loop_determined
                (fun kv => {| Value := http.Header_Get CanonicalHeaderKey
                                         (http.Response_Header resp) (fst kv) |})
                (range 2%nat (list string) (http.Response_Header resp))
                (range' 2%nat (list string) (http.Response_Header resp))) as [Hm Hl].
    + rewrite Hr. apply NoDup_fst_map_to_list.
    + by rewrite Hr, Hr'.
    + cbv beta zeta in Hm, Hl |- *. by rewrite Hm, Hl.
Qed.

(** *** More of the concrete environment *)

(** The canonical form of a name made of letters and hyphens: upper case at
    the start and after a hyphen, lower case elsewhere. *)
Definition upper (c : ascii) : ascii :=
  let n := nat_of_ascii c in
  if (97 <=? n)%nat && (n <=? 122)%nat then ascii_of_nat (n - 32) else c.

Definition lower (c : ascii) : ascii :=
  let n := nat_of_ascii c in
  if (65 <=? n)%nat && (n <=? 90)%nat then ascii_of_nat (n + 32) else c.

Fixpoint canonical_from (up : bool) (s : string) : string :=
  match s with
  | EmptyString => EmptyString
  | String c s' =>
      String (if up then upper c else lower c) (canonical_from (Ascii.eqb c "-") s')
  end.

Definition canonical_of_letters (key : string) : string := canonical_from true key.

Example canonical_of_letters_of_a_name :
  canonical_of_letters "aCCePT-lANGuage" = "Accept-Language".
Proof. reflexivity. Qed.

(** Enumeration in the reverse of the stored order. *)
Definition reverse_order (site : nat) (V : Type) (m : gmap string V) : list (string * V) :=
  reverse (map_to_list m).

Lemma reverse_order_enumerates (site : nat) (V : Type) (m : gmap string V) :
  reverse_order site V m ≡ₚ map_to_list m.
Proof. apply reverse_Permutation. Qed.

(** A connection that accepts every byte. *)
Definition accepting : NetConn :=
  {| NetConn_Write := fun b => (Z.of_nat (String.length b), None) |}.

Definition one_header : gmap string string := {[ "hOSt" := "a.com" ]}.

Lemma one_header_apart (V : Type) (key : string) (value : V) (k1 k2 : string) :
  is_Some (({[ key := value ]} : gmap string V) !! k1) ->
  is_Some (({[ key := value ]} : gmap string V) !! k2) ->
  canonical_of_letters k1 = canonical_of_letters k2 -> k1 = k2.
Proof.
  intros [v1 H1] [v2 H2] _.
  apply lookup_singleton_Some in H1 as [<- _].
  by apply lookup_singleton_Some in H2 as [<- _].
Qed.

(** X11 at a helper that answers 200 with a body that decodes. *)
Lemma Run_returns_an_error_only_before_any_request_witness :
  match Run stored_order id describe id failure_string "json_parse_error"
            decode_as_empty plain_request sent_headers (fun _ => answering) id
            {| Measurer_Transport := None |}
            {| GetTestHelpersByName := legacy_helper |}
            empty_measurement with
  | (progress, Returned (measurement', Some err)) =>
      progress = [] /\
      Measurement_TestKeys measurement' = Some initial_TestKeys /\
      (err = ErrNoAvailableTestHelpers \/ err = ErrInvalidHelperType \/
       exists helper, plain_request "GeT" (Address helper) = inr err)
  | (progress, Returned (measurement', None)) =>
      exists tk entry helper others,
        legacy_helper helperName = (helper :: others, true) /\
        TestHelpers measurement' = Some {[ "backend" := Address helper ]} /\
        Measurement_TestKeys measurement' = Some tk /\
        Agent tk = "agent" /\ Requests tk = [entry] /\
        (length progress = 2 \/ length progress = 4)%nat
  | (_, Panicked _) => False
  end.
Proof.
  apply (Run_returns_an_error_only_before_any_request
           stored_order id describe id failure_string "json_parse_error"
           decode_as_empty plain_request sent_headers (fun _ => answering) id).
  discriminate.
Defined.

(** X12 at a helper that answers 200 with a body that does not decode. *)
Lemma Run_files_the_failure_or_the_response_witness :
  exists measurement' tk entry,
    snd (Run stored_order id describe id failure_string "json_parse_error"
             undecodable plain_request sent_headers (fun _ => answering) id
             {| Measurer_Transport := None |}
             {| GetTestHelpersByName := legacy_helper |}
             empty_measurement) = Returned (measurement', None) /\
    Measurement_TestKeys measurement' = Some tk /\ Requests tk = [entry] /\
    Failure tk = Some "json_parse_error" /\
    RequestEntry_Failure entry = None /\
    Response entry = NewHTTPResponse stored_order id answer "{}".
Proof.
  apply (Run_files_the_failure_or_the_response_in_the_request_entry
           stored_order id describe id failure_string "json_parse_error"
           undecodable plain_request sent_headers (fun _ => answering) id
           {| Measurer_Transport := None |}
           {| GetTestHelpersByName := legacy_helper |}
           empty_measurement
           {| Address := "http://37.218.241.94:80"; Type_ := "legacy" |} []
           {| http.Request_Method := "GeT"; http.Request_URL := "http://37.218.241.94:80";
              http.Request_Header := ∅; http.Request_Host := "" |});
    reflexivity.
Defined.

(** X14 at a helper that echoes one header and the request line. *)
Lemma FillTampering_of_an_exact_echo_witness :
  let before := Tampering_ initial_TestKeys in
  let after :=
    Tampering_ (FillTampering stored_order canonical_of_letters initial_TestKeys
                  {| http.Request_Method := "GeT"; http.Request_URL := "http://37.218.241.94:80";
                     http.Request_Header := ∅; http.Request_Host := "" |}
                  {| HeadersDict := (fun v => [v]) <$> one_header;
                     RequestLine := "GeT / HTTP/1.1" |}
                  one_header) in
  HeaderFieldNumber after = false /\
  RequestLineCapitalization after = false /\
  HeaderFieldValue after = HeaderFieldValue before /\
  HeaderNameCapitalization after = HeaderNameCapitalization before /\
  HeaderNameDiff after = HeaderNameDiff before.
Proof.
  apply (FillTampering_of_an_exact_echo_raises_nothing
           stored_order canonical_of_letters stored_order_enumerates).
  - apply one_header_apart.
  - reflexivity.
  - reflexivity.
Defined.

(** X15 at a helper that reports the header under its canonical name and
    with another value. *)
Lemma FillTampering_flags_a_changed_name_and_a_changed_value_witness :
  let after :=
    Tampering_ (FillTampering stored_order canonical_of_letters initial_TestKeys
                  {| http.Request_Method := "GeT"; http.Request_URL := "http://37.218.241.94:80";
                     http.Request_Header := ∅; http.Request_Host := "" |}
                  {| HeadersDict := {[ "Host" := ["b.com"] ]};
                     RequestLine := "GeT / HTTP/1.1" |}
                  one_header) in
  ("hOSt" <> "Host" ->
   HeaderNameCapitalization after = true /\
   "hOSt" ∈ HeaderNameDiff after /\ "Host" ∈ HeaderNameDiff after) /\
  (["b.com"] <> ["a.com"] -> HeaderFieldValue after = true).
Proof.
  apply (FillTampering_flags_a_changed_name_and_a_changed_value
           stored_order canonical_of_letters stored_order_enumerates).
  - apply one_header_apart.
  - apply one_header_apart.
  - reflexivity.
  - reflexivity.
  - reflexivity.
Defined.

(** X16 at a request line, in which no header name stands. *)
Lemma Write_hands_on_a_buffer_with_no_name_to_restore_witness :
  Conn_Write stored_order canonical_of_letters
    {| Conn_Conn := accepting; Conn_Headers := one_header |} "GeT / HTTP/1.1"
  = NetConn_Write accepting "GeT / HTTP/1.1".
Proof.
  apply (Write_hands_on_a_buffer_with_no_name_to_restore
           stored_order canonical_of_letters stored_order_enumerates
           {| Conn_Conn := accepting; Conn_Headers := one_header |}).
  intros key [v Hkey]. cbn [Conn_Headers] in Hkey. unfold one_header in Hkey.
  apply lookup_singleton_Some in Hkey as [<- _].
  right. reflexivity.
Defined.

(** X17 at a header line. *)
Lemma Write_keeps_the_length_of_the_buffer_witness :
  exists b',
    Conn_Write stored_order canonical_of_letters
      {| Conn_Conn := accepting; Conn_Headers := one_header |} "Host: a.com"
    = NetConn_Write accepting b' /\
    String.length b' = String.length "Host: a.com".
Proof.
  apply (Write_keeps_the_length_of_the_buffer
           stored_order canonical_of_letters stored_order_enumerates
           {| Conn_Conn := accepting; Conn_Headers := one_header |}).
  intros key [v Hkey]. cbn [Conn_Headers] in Hkey. unfold one_header in Hkey.
  apply lookup_singleton_Some in Hkey as [<- _].
  reflexivity.
Defined.

(** X18 at a dialer without a dialer of its own, over a default dialer that
    always connects. *)
Lemma Write_after_DialContext_witness :
  exists c,
    DialContext (fun _ _ => inl accepting)
      {| Dialer_Dialer := None; Dialer_Headers := one_header |} "tcp" "37.218.241.94:80"
    = (Some c, None) /\
    Conn_Write stored_order canonical_of_letters c
      ("GeT / HTTP/1.1 " +:+ (canonical_of_letters "hOSt" +:+ ":") +:+ " a.com")
    = NetConn_Write accepting ("GeT / HTTP/1.1 " +:+ ("hOSt" +:+ ":") +:+ " a.com").
Proof.
  apply (Write_after_DialContext_restores_the_name_of_the_header
           stored_order canonical_of_letters stored_order_enumerates
           (fun _ _ => inl accepting)
           {| Dialer_Dialer := None; Dialer_Headers := one_header |}
           accepting "tcp" "37.218.241.94:80" "hOSt" "a.com");
    reflexivity.
Defined.

(** X19 at the headers of an example request and an example response. *)
Lemma header_maps_hold_each_name_once_witness :
  (forall entry : RequestEntry,
      entry ∈ NewRequestEntryList stored_order
                {| http.Request_Method := "GeT"; http.Request_URL := "http://37.218.241.94:80";
                   http.Request_Header := ∅; http.Request_Host := "" |} sent_headers ->
      HTTPRequest_Headers (Request entry) = (fun v => {| Value := v |}) <$> sent_headers) /\
  HTTPResponse_Headers (NewHTTPResponse stored_order canonical_of_letters answer "{}")
    !! "Content-Type" = Some {| Value := "application/json" |}.
Proof.
  pose proof (header_maps_hold_each_name_once_with_one_value
                stored_order canonical_of_letters stored_order_enumerates)
    as (Hreq & _ & Hresp).
  split; [apply Hreq | apply (Hresp answer "{}" "Content-Type" ["application/json"])];
    reflexivity.
Defined.

(** X20 at a new request and one header. *)
Lemma prepare_request_files_each_header_witness :
  let req := {| http.Request_Method := "GeT"; http.Request_URL := "http://37.218.241.94:80";
                http.Request_Header := ∅; http.Request_Host := "" |} in
  let req' := prepare_request stored_order canonical_of_letters req one_header in
  (forall k v, one_header !! k = Some v ->
     http.Request_Header req' !! canonical_of_letters k = Some [v]) /\
  (forall c, (forall k, is_Some (one_header !! k) -> canonical_of_letters k <> c) ->
     http.Request_Header req' !! c = http.Request_Header req !! c) /\
  http.Request_Method req' = http.Request_Method req /\
  http.Request_URL req' = http.Request_URL req /\
  (forall k v, one_header !! k = Some v ->
     canonical_of_letters k = canonical_of_letters "Host" -> http.Request_Host req' = v).
Proof.
  apply (prepare_request_files_each_header_under_its_canonical_name
           stored_order canonical_of_letters stored_order_enumerates).
  apply one_header_apart.
Defined.

(** X21 at the stored order and its reverse. *)
Lemma archived_headers_do_not_depend_on_the_order_witness :
  NewRequestEntryList stored_order
    {| http.Request_Method := "GeT"; http.Request_URL := "http://37.218.241.94:80";
       http.Request_Header := ∅; http.Request_Host := "" |} sent_headers
  = NewRequestEntryList reverse_order
      {| http.Request_Method := "GeT"; http.Request_URL := "http://37.218.241.94:80";
         http.Request_Header := ∅; http.Request_Host := "" |} sent_headers /\
  NewHTTPResponse stored_order canonical_of_letters answer "{}"
  = NewHTTPResponse reverse_order canonical_of_letters answer "{}".
Proof.
  pose proof (archived_headers_do_not_depend_on_the_enumeration_order
                stored_order reverse_order canonical_of_letters
                stored_order_enumerates reverse_order_enumerates) as [Hreq Hresp].
  split; [apply Hreq | apply Hresp].
Defined.

End hhfm.

(** ** strconv.ParseInt and strconv.ParseUint, base 10 and 64 bits *)

Module strconv.

Definition is_digit (c : ascii) : bool :=
  (48 <=? Z.of_N (N_of_ascii c)) && (Z.of_N (N_of_ascii c) <=? 57).

Definition digit (c : ascii) : Z := Z.of_N (N_of_ascii c) - 48.

Definition maxUint64 : Z := 2 ^ 64 - 1.
Definition maxInt64 : Z := 2 ^ 63 - 1.

(** The loop of [ParseUint]: a byte that is no digit is a syntax error; the
    value is given up as soon as the next digit would take it past
    [maxUint64]. *)
Fixpoint ParseUint_loop (n : Z) (s : string) : Z * error :=
  match s with
  | EmptyString => (n, None)
  | String c s' =>
      if negb (is_digit c) then (0, Some ErrSyntax)
      else if n >=? maxUint64 / 10 + 1 then (maxUint64, Some ErrRange) (* n*base overflows *)
      else
        let n1 := n * 10 + digit c in
        if n1 >? maxUint64 then (maxUint64, Some ErrRange) (* n+d overflows *)
        else ParseUint_loop n1 s'
  end.

Definition ParseUint (s : string) : Z * error :=
  match s with
  | EmptyString => (0, Some ErrSyntax)
  | _ => ParseUint_loop 0 s
  end.

(** [strconv.ParseInt(s, 10, 64)] *)
Definition ParseInt (s : string) : Z * error :=
  match s with
  | EmptyString => (0, Some ErrSyntax)
  | String c rest =>
      (* Pick off leading sign. *)
      let neg := Ascii.eqb c "-" in
      let s1 := if Ascii.eqb c "+" || Ascii.eqb c "-" then rest else s in
      (* Convert unsigned and check range. *)
      let '(un, err) := ParseUint s1 in
      match err with
      | Some ErrRange | None =>
          let cutoff := 2 ^ 63 in
          if negb neg && (un >=? cutoff) then (cutoff - 1, Some ErrRange)
          else if neg && (un >? cutoff) then (- cutoff, Some ErrRange)
          else (if neg then - un else un, None)
      | Some e => (0, Some e)
      end
  end.

(** The number a string of decimal digits denotes. *)
Fixpoint decimal_from (n : Z) (s : string) : Z :=
  match s with
  | EmptyString => n
  | String c s' => decimal_from (n * 10 + digit c) s'
  end.

Definition decimal (s : string) : Z := decimal_from 0 s.

Fixpoint all_digits (s : string) : bool :=
  match s with
  | EmptyString => true
  | String c s' => is_digit c && all_digits s'
  end.

Lemma digit_range (c : ascii) : is_digit c = true -> 0 <= digit c <= 9.
Proof. unfold is_digit, digit. lia. Qed.

Lemma decimal_from_ge (s : string) (n : Z) :
  all_digits s = true -> 0 <= n -> n <= decimal_from n s.
Proof.
  revert n. induction s as [|c s IH]; simpl; intros n Hs Hn; [lia|].
  apply andb_prop in Hs as [Hc Hs]. apply digit_range in Hc.
  specialize (IH (n * 10 + digit c) Hs). lia.
Qed.

Lemma ParseUint_loop_digits (s : string) (n : Z) :
  all_digits s = true -> 0 <= n <= maxUint64 ->
  ParseUint_loop n s =
  if decimal_from n s <=? maxUint64 then (decimal_from n s, None)
  else (maxUint64, Some ErrRange).
Proof.
  revert n. induction s as [|c s IH]; simpl; intros n Hs Hn.
  - destruct (Z.leb_spec n maxUint64); [done|lia].
  - apply andb_prop in Hs as [Hc Hs]. rewrite Hc. simpl.
    pose proof (digit_range c Hc) as Hd.
    pose proof (decimal_from_ge s (n * 10 + digit c) Hs) as Hge.
    assert (Hmax : maxUint64 = 18446744073709551615) by reflexivity.
    assert (Hcut : maxUint64 / 10 + 1 = 1844674407370955162) by reflexivity.
    rewrite Hcut.
    destruct (Z.geb_spec n 1844674407370955162) as [Hbig|Hsmall].
    + destruct (Z.leb_spec (decimal_from (n * 10 + digit c) s) maxUint64); [lia|done].
    + destruct (Z.gtb_spec (n * 10 + digit c) maxUint64) as [Hover|Hfits].
      * destruct (Z.leb_spec (decimal_from (n * 10 + digit c) s) maxUint64); [lia|done].
      * apply IH; [done|lia].
Qed.

(** On a non-empty string of digits [ParseInt] yields the number the digits
    denote when it fits 63 bits, and a range error otherwise. *)
Lemma ParseInt_digits (s : string) :
  s <> EmptyString -> all_digits s = true ->
  ParseInt s =
  if decimal s <=? maxInt64 then (decimal s, None) else (maxInt64, Some ErrRange).
Proof.
  intros Hne Hs. destruct s as [|c s]; [done|].
  unfold ParseInt.
  assert (Hc : is_digit c = true) by (simpl in Hs; by apply andb_prop in Hs as [? _]).
  assert (Hplus : Ascii.eqb c "+" = false).
  { destruct (Ascii.eqb_spec c "+") as [->|]; [done|done]. }
  assert (Hminus : Ascii.eqb c "-" = false).
  { destruct (Ascii.eqb_spec c "-") as [->|]; [done|done]. }
  rewrite Hplus, Hminus. cbn [orb negb andb].
  unfold ParseUint. rewrite (ParseUint_loop_digits (String c s) 0 Hs) by (unfold maxUint64; lia).
  fold (decimal (String c s)).
  assert (Hmax : maxUint64 = 18446744073709551615) by reflexivity.
  assert (Hint : maxInt64 = 9223372036854775807) by reflexivity.
  change (2 ^ 63) with 9223372036854775808.
  generalize (decimal (String c s)). intros d.
  destruct (Z.leb_spec d maxUint64) as [Hu|Hu].
  - destruct (Z.geb_spec d 9223372036854775808) as [Hb|Hb];
      destruct (Z.leb_spec d maxInt64) as [Hi|Hi];
      try lia; by rewrite ?Hint.
  - rewrite Hmax. cbn.
    destruct (Z.leb_spec d maxInt64) as [Hi|Hi]; [lia|by rewrite Hint].
Qed.

Example ParseInt_of_a_small_number : ParseInt "42" = (42, None).
Proof. reflexivity. Qed.

Example ParseInt_of_the_largest_int64 :
  ParseInt "9223372036854775807" = (9223372036854775807, None).
Proof. reflexivity. Qed.

Example ParseInt_of_the_smallest_int64 :
  ParseInt "-9223372036854775808" = (-9223372036854775808, None).
Proof. reflexivity. Qed.

Example ParseInt_past_the_largest_int64 :
  ParseInt "9223372036854775808" = (9223372036854775807, Some ErrRange).
Proof. reflexivity. Qed.

Example ParseInt_past_the_largest_uint64 :
  ParseInt "99999999999999999999999" = (9223372036854775807, Some ErrRange).
Proof. reflexivity. Qed.

Example ParseInt_of_text : ParseInt "12a" = (0, Some ErrSyntax).
Proof. reflexivity. Qed.

End strconv.

(** ** engine: what an experiment does with input *)

Module engine.

Inductive InputPolicy : Type := InputRequired | InputOptional | InputNone.

End engine.

(** ** libminiooni: the miniooni driver *)

Module libminiooni.

Import engine.

(** The options the embedded part of the driver reads. *)
Record Options : Type := {
  Annotations : list string;
  ExtraOptions : list string;
  Inputs : list string;
  InputFilePath : string;
  NoJSON : bool;
  NoCollector : bool;
  ReportFile : string;
}.

Definition fatalWithString {A : Type} (msg : string) : Outcome A := Panicked msg.

Definition fatalIfFalse (cond : bool) (msg : string) : Outcome unit :=
  if negb cond then Panicked msg else Returned tt.

Definition fatalOnError (err : error) (msg : string) : Outcome unit :=
  match err with
  | Some _ => Panicked msg
  | None => Returned tt
  end.

(** [strings.SplitN(s, sep, 2)] for a separator of one byte: the string
    itself when the separator does not occur, and otherwise what stands
    before and after its first occurrence. *)
Fixpoint SplitN2 (sep : ascii) (s : string) : list string :=
  match s with
  | EmptyString => [EmptyString]
  | String c s' =>
      if Ascii.eqb c sep then [EmptyString; s']
      else match SplitN2 sep s' with
           | [k; v] => [String c k; v]
           | _ => [s]
           end
  end.

Definition split (s : string) : string * string * error :=
  match SplitN2 "=" s with
  | [k; v] => (k, v, None)
  | _ => ("", "", Some ErrInvalidKeyValuePair)
  end.

(** The body of the loop of [mustMakeMap]; a panic of an earlier round
    stands. *)
Definition mustMakeMap_step (output : Outcome (gmap string string)) (opt : string) :
    Outcome (gmap string string) :=
  do output <- output;
  let '(key, value, err) := split opt in
  do _ <- fatalOnError err "cannot split key-value pair";
  Returned (<[key := value]> output).

Definition mustMakeMap (input : list string) : Outcome (gmap string string) :=
  foldl mustMakeMap_step (Returned ∅) input.

(** [regexp.MustCompile("^[0-9]+$").MatchString]: the whole text is one or
    more ASCII digits (without the multi-line flag [$] is the end of the
    text). *)
Definition intregexp_MatchString (value : string) : bool :=
  negb (String.eqb value "") && strconv.all_digits value.

(** [strings.Split(s, sep)] for a separator of one byte. *)
Fixpoint Split (sep : ascii) (s : string) : list string :=
  match s with
  | EmptyString => [EmptyString]
  | String c s' =>
      if Ascii.eqb c sep then EmptyString :: Split sep s'
      else match Split sep s' with
           | x :: xs => String c x :: xs
           | [] => [String c EmptyString]
           end
  end.

Definition newline : ascii := Ascii.ascii_of_nat 10.

Definition with_Inputs (opts : Options) (inputs : list string) : Options :=
  {| Annotations := Annotations opts; ExtraOptions := ExtraOptions opts;
     Inputs := inputs; InputFilePath := InputFilePath opts;
     NoJSON := NoJSON opts; NoCollector := NoCollector opts;
     ReportFile := ReportFile opts |}.

(** [loadFileInputs]; [ReadFile] is ioutil.ReadFile. *)
Definition loadFileInputs (ReadFile : string -> string * error) (opts : Options) :
    Outcome Options :=
  if negb (String.eqb (InputFilePath opts) "") then
    do _ <- (if negb (Nat.eqb (length (Inputs opts)) 0)
             then fatalWithString
                    "inputs can either be supplied through file or command line, but not both"
             else Returned tt);
    let '(content, err) := ReadFile (InputFilePath opts) in
    do _ <- fatalOnError err "cannot read input file";
    Returned
      (foldl (fun opts input =>
                if negb (String.eqb input "") then with_Inputs opts (Inputs opts ++ [input])
                else opts)
             opts (Split newline content))
  else Returned opts.

(** The inputs the experiment is run on, by its input policy; [fetch] is the
    download of the test list, which may be fatal. *)
Definition inputs_by_policy (policy : InputPolicy) (fetch : Outcome (list string))
    (inputs : list string) : Outcome (list string) :=
  match policy with
  | InputRequired =>
      if Nat.leb (length inputs) 0 then
        do urls <- fetch;
        Returned (foldl (fun inputs url => inputs ++ [url]) inputs urls)
      else Returned inputs
  | InputOptional =>
      if Nat.eqb (length inputs) 0 then Returned (inputs ++ [""]) else Returned inputs
  | InputNone =>
      if negb (Nat.eqb (length inputs) 0) then
        fatalWithString "this experiment does not expect any input"
      else
        (* Tests that do not expect input internally require an empty input to run *)
        Returned (inputs ++ [""])
  end.

(** A builder that accepts every option and keeps the calls it received. *)
Definition recorded (kind : string) (builder : list (string * string * string))
    (key value : string) : list (string * string * string) * error :=
  (builder ++ [(kind, key, value)], None).

Definition record_bool (builder : list (string * string * string)) (key : string) (b : bool) :=
  recorded "bool" builder key (if b then "true" else "false").

Definition record_int (builder : list (string * string * string)) (key : string) (n : Z) :=
  recorded "int" builder key (if n <=? strconv.maxInt64 then "int64" else "too large").

Definition record_string (builder : list (string * string * string)) (key value : string) :=
  recorded "string" builder key value.

(** Whether a byte occurs in a string. *)
Fixpoint occurs (c : ascii) (s : string) : bool :=
  match s with
  | EmptyString => false
  | String c' s' => Ascii.eqb c' c || occurs c s'
  end.

Section with_builder.

(** engine.ExperimentBuilder: a setter changes the builder and may refuse the
    option.  [range] is the order in which the options map is enumerated. *)
Context {Builder : Type}.
Context (SetOptionBool : Builder -> string -> bool -> Builder * error).
Context (SetOptionInt : Builder -> string -> Z -> Builder * error).
Context (SetOptionString : Builder -> string -> string -> Builder * error).
Context (range : gmap string string -> list (string * string)).

(** The body of the loop over the extra options. *)
Definition set_extra_option (builder : Builder) (key value : string) : Outcome Builder :=
  if String.eqb value "true" || String.eqb value "false" then
    let '(builder, err) := SetOptionBool builder key (String.eqb value "true") in
    do _ <- fatalOnError err "cannot set boolean option";
    Returned builder
  else if intregexp_MatchString value then
    let '(number, err) := strconv.ParseInt value in
    do _ <- fatalOnError err "cannot parse integer option";
    let '(builder, err) := SetOptionInt builder key number in
    do _ <- fatalOnError err "cannot set integer option";
    Returned builder
  else
    let '(builder, err) := SetOptionString builder key value in
    do _ <- fatalOnError err "cannot set string option";
    Returned builder.

Definition set_extra_options (builder : Builder) (extraOptions : gmap string string) :
    Outcome Builder :=
  foldl (fun builder kv => do builder <- builder; set_extra_option builder (fst kv) (snd kv))
        (Returned builder) (range extraOptions).

(** *** The coercion as the specification words it *)

(** The tagged union the specification asks for. *)
Inductive OptionValue : Type :=
| BoolOption (b : bool)
| IntOption (n : Z)
| StringOption (s : string).

(** "the literal strings true and false are set as boolean options, any other
    value consisting entirely of ASCII digits is parsed and set as a 64-bit
    integer option, and every other value is set as a string option" *)
Definition coerce_as_specified (value : string) : OptionValue :=
  if String.eqb value "true" then BoolOption true
  else if String.eqb value "false" then BoolOption false
  else if negb (String.eqb value "") && strconv.all_digits value
       then IntOption (strconv.decimal value)
  else StringOption value.

(** Setting an option of a known type: the setter of that type is called and
    its refusal is fatal. *)
Definition set_typed_option (builder : Builder) (key : string) (v : OptionValue) :
    Outcome Builder :=
  match v with
  | BoolOption b =>
      let '(builder, err) := SetOptionBool builder key b in
      do _ <- fatalOnError err "cannot set boolean option";
      Returned builder
  | IntOption n =>
      let '(builder, err) := SetOptionInt builder key n in
      do _ <- fatalOnError err "cannot set integer option";
      Returned builder
  | StringOption s =>
      let '(builder, err) := SetOptionString builder key s in
      do _ <- fatalOnError err "cannot set string option";
      Returned builder
  end.

(** C9, as amended: the value of every extra option is typed by exactly one
    of three branches.  The literals "true" and "false" are set as boolean
    options; any other non-empty value made of ASCII digits only is read as a
    decimal number and set as a 64-bit integer option when the number is at
    most 2^63-1, while a larger number is the fatal error "cannot parse integer
    option" and sets nothing; every other value is set as a string option. *)
Theorem C9_extra_option_typed_by_one_of_three_branches
    (builder : Builder) (key value : string) :
  set_extra_option builder key value =
  match coerce_as_specified value with
  | IntOption n =>
      if n <=? strconv.maxInt64 then set_typed_option builder key (IntOption n)
      else Panicked "cannot parse integer option"
  | v => set_typed_option builder key v
  end.
Proof.
  unfold set_extra_option, coerce_as_specified, intregexp_MatchString.
  destruct (String.eqb_spec value "true") as [->|Htrue]; [reflexivity|].
  destruct (String.eqb_spec value "false") as [->|Hfalse]; [reflexivity|].
  cbn [orb].
  destruct (String.eqb_spec value "") as [->|Hne]; [reflexivity|].
  cbn [negb andb].
  destruct (strconv.all_digits value) eqn:Hdigits; [|reflexivity].
  rewrite (strconv.ParseInt_digits value Hne Hdigits).
  destruct (strconv.decimal value <=? strconv.maxInt64); reflexivity.
Qed.

End with_builder.

(** C9 as the specification states it fails: "9223372036854775808" (2^63) consists of
    ASCII digits only, yet it is not set as an integer option, nor as
    anything else: the driver stops with "cannot parse integer option". *)
Lemma C9_counterexample_integer_out_of_range :
  coerce_as_specified "9223372036854775808" = IntOption 9223372036854775808 /\
  set_extra_option record_bool record_int record_string [] "Limit" "9223372036854775808"
  = Panicked "cannot parse integer option" /\
  set_extra_option record_bool record_int record_string [] "Limit" "9223372036854775808"
  <> set_typed_option record_bool record_int record_string [] "Limit"
       (coerce_as_specified "9223372036854775808").
Proof.
  split; [reflexivity|]. split; [reflexivity|]. discriminate.
Qed.

Example split_of_an_option : split "Limit=17" = ("Limit", "17", None).
Proof. reflexivity. Qed.

Example split_keeps_later_equals_signs : split "URL=http://x/?a=b" = ("URL", "http://x/?a=b", None).
Proof. reflexivity. Qed.

Example split_without_equals_sign : split "Limit" = ("", "", Some ErrInvalidKeyValuePair).
Proof. reflexivity. Qed.

Example three_options_three_types :
  set_extra_options record_bool record_int record_string
    (fun m => [("Verbose", "true"); ("Limit", "17"); ("Domain", "example.com"); ("Port", "0x50")])
    [] ∅
  = Returned [("bool", "Verbose", "true"); ("int", "Limit", "int64");
              ("string", "Domain", "example.com"); ("string", "Port", "0x50")].
Proof. reflexivity. Qed.

(** *** Key-value pairs, input files and input policies *)

Lemma SplitN2_cases (sep : ascii) (s : string) :
  (occurs sep s = false /\ SplitN2 sep s = [s]) \/
  (exists k v, SplitN2 sep s = [k; v] /\
               s = k +:+ String sep v /\ occurs sep k = false).
Proof.
  induction s as [|c s IH]; simpl; [by left|].
  destruct (Ascii.eqb_spec c sep) as [->|Hne]; simpl.
  - right. exists EmptyString, s. done.
  - destruct IH as [[Hocc ->]|(k & v & -> & -> & Hocc)].
    + left. done.
    + right. exists (String c k), v. simpl.
      destruct (Ascii.eqb_spec c sep); [done|]. done.
Qed.

(** X6: [split] cuts a pair at its first "=": the key holds no "=", and key,
    "=" and value put together give the pair back; the pair is refused when,
    and only when, it holds no "=" at all. *)
Theorem split_cuts_at_the_first_equals_sign (s : string) :
  match split s with
  | (key, value, None) => s = key +:+ "=" +:+ value /\ occurs "=" key = false
  | (key, value, Some err) =>
      key = "" /\ value = "" /\ err = ErrInvalidKeyValuePair /\ occurs "=" s = false
  end.
Proof.
  unfold split.
  destruct (SplitN2_cases "=" s) as [[Hocc ->]|(k & v & -> & -> & Hocc)]; done.
Qed.

Lemma Split_segments (sep : ascii) (s : string) :
  Split sep s <> [] /\ Forall (fun x => occurs sep x = false) (Split sep s).
Proof.
  induction s as [|c s [Hne IH]]; simpl.
  - split; [done|]. by repeat constructor.
  - destruct (Ascii.eqb_spec c sep) as [->|Hc].
    + split; [done|]. by constructor.
    + destruct (Split sep s) as [|x xs]; [done|].
      apply Forall_cons in IH as [Hx Hxs].
      split; [done|]. constructor; [|done]. simpl.
      destruct (Ascii.eqb_spec c sep); done.
Qed.

Lemma loadFileInputs_loop (lines : list string) (opts : Options) :
  let opts' :=
    foldl (fun opts input =>
             if negb (String.eqb input "") then with_Inputs opts (Inputs opts ++ [input])
             else opts) opts lines in
  Inputs opts' = Inputs opts ++ filter (fun input => input <> "") lines.
Proof.
  cbv zeta. revert opts. induction lines as [|x lines IH]; intros opts; simpl.
  - by rewrite app_nil_r.
  - rewrite IH. destruct (String.eqb_spec x "") as [->|Hx]; simpl.
    + by rewrite filter_cons_False by (intros H; by apply H).
    + rewrite filter_cons_True by done. by rewrite <- app_assoc.
Qed.

(** X7: [loadFileInputs] leaves the options alone when no input file is
    named, is fatal when inputs are given both in a file and on the command
    line, and is fatal when the file cannot be read; otherwise the inputs are
    the lines of the file that are not empty, in their order. *)
Theorem loadFileInputs_reads_the_lines_that_are_not_empty
    (ReadFile : string -> string * error) (opts : Options) :
  match loadFileInputs ReadFile opts with
  | Returned opts' =>
      (InputFilePath opts = "" /\ opts' = opts) \/
      (InputFilePath opts <> "" /\ Inputs opts = [] /\
       snd (ReadFile (InputFilePath opts)) = None /\
       Inputs opts' =
         filter (fun input => input <> "")
                (Split newline (fst (ReadFile (InputFilePath opts)))) /\
       Forall (fun input => input <> "" /\ occurs newline input = false) (Inputs opts'))
  | Panicked msg =>
      InputFilePath opts <> "" /\
      ((Inputs opts <> [] /\
        msg = "inputs can either be supplied through file or command line, but not both") \/
       (Inputs opts = [] /\ snd (ReadFile (InputFilePath opts)) <> None /\
        msg = "cannot read input file"))
  end.
Proof.
  unfold loadFileInputs.
  destruct (String.eqb_spec (InputFilePath opts) "") as [Hpath|Hpath]; cbn [negb].
  { left. done. }
  destruct (Inputs opts) as [|i is_] eqn:Hin; cbn [length Nat.eqb negb bind fatalWithString].
  2:{ split; [done|]. left. done. }
  destruct (ReadFile (InputFilePath opts)) as [content [e|]]; cbn [fatalOnError bind fst snd].
  { split; [done|]. right. done. }
  right. split; [done|]. split; [done|]. split; [done|].
  pose proof (loadFileInputs_loop (Split newline content) opts) as Hloop.
  cbv zeta in Hloop. rewrite Hin in Hloop. cbn [app] in Hloop.
  split; [exact Hloop|]. rewrite Hloop.
  apply Forall_forall. intros x Hx. apply list_elem_of_filter in Hx as [Hne Hx].
  split; [done|].
  destruct (Split_segments newline content) as [_ Hseg].
  rewrite Forall_forall in Hseg. by apply Hseg.
Qed.

(** X8: the inputs chosen by policy.  Inputs given by the user are never
    changed; an experiment whose input is optional, or that takes none, runs
    once on the empty input when none is given; giving inputs to an
    experiment that takes none is fatal; only a required input is fetched. *)
Theorem inputs_by_policy_keeps_given_inputs_and_defaults_to_one_empty_input
    (policy : InputPolicy) (fetch : Outcome (list string)) (inputs : list string) :
  match inputs, policy with
  | _ :: _, InputNone =>
      inputs_by_policy policy fetch inputs =
      Panicked "this experiment does not expect any input"
  | _ :: _, _ => inputs_by_policy policy fetch inputs = Returned inputs
  | [], InputRequired =>
      inputs_by_policy policy fetch inputs = (do urls <- fetch; Returned urls)
  | [], _ => inputs_by_policy policy fetch inputs = Returned [""]
  end.
Proof.
  destruct inputs as [|i inputs], policy; try reflexivity.
  unfold inputs_by_policy. cbn [length Nat.leb]. destruct fetch as [urls|msg]; [|done].
  cbn [bind]. f_equal.
  assert (H : forall acc : list string,
             foldl (fun (inputs : list string) (url : string) => inputs ++ [url]) acc urls
             = acc ++ urls).
  { induction urls as [|u l IH]; intros acc; simpl; [by rewrite app_nil_r|].
    rewrite IH. by rewrite <- app_assoc. }
  apply H.
Qed.

(** The key and the value [split] finds in a pair. *)
Definition pair_of (opt : string) : string * string :=
  (fst (fst (split opt)), snd (fst (split opt))).

Lemma split_error_iff (opt : string) :
  snd (split opt) = None <-> occurs "=" opt = true.
Proof.
  unfold split.
  destruct (SplitN2_cases "=" opt) as [[Hocc ->]|(k & v & -> & -> & Hocc)]; simpl.
  - rewrite Hocc. split; discriminate.
  - split; [intros _|done].
    induction k as [|c k IH]; simpl.
    + done.
    + simpl in Hocc. apply orb_false_iff in Hocc as [-> Hocc]. simpl. by apply IH.
Qed.

(** X9: [mustMakeMap] panics with "cannot split key-value pair" exactly when
    some pair holds no "="; otherwise every pair is entered under its key
    and, of several pairs with one key, the last one given wins. *)
Theorem mustMakeMap_enters_every_pair_and_the_last_one_wins (input : list string) :
  mustMakeMap input =
  if forallb (occurs "=") input
  then Returned (list_to_map (reverse (pair_of <$> input)))
  else Panicked "cannot split key-value pair".
Proof.
  unfold mustMakeMap.
  induction input as [|opt input IH] using rev_ind; [reflexivity|].
  rewrite foldl_app, IH, forallb_app, fmap_app. cbn [fmap list_fmap].
  rewrite reverse_snoc. cbn [foldl forallb list_to_map foldr].
  unfold mustMakeMap_step.
  destruct (forallb (occurs "=") input); simpl.
  - rewrite andb_true_r. unfold pair_of.
    pose proof (split_error_iff opt) as Hsplit.
    destruct (split opt) as [[key value] [e|]]; simpl in *.
    + destruct (occurs "=" opt); [|done]. by destruct Hsplit as [_ H]; discriminate H.
    + destruct (occurs "=" opt); [done|]. by destruct Hsplit as [H _]; discriminate H.
  - reflexivity.
Qed.

(** *** The home directory *)

(** [gethomedir]; [GOOS] is runtime.GOOS and [Getenv] is os.Getenv. *)
Definition gethomedir (GOOS : string) (Getenv : string -> string)
    (optionsHome : string) : string :=
  if negb (String.eqb optionsHome "") then optionsHome
  else if String.eqb GOOS "windows" then
    let home := Getenv "HOMEDRIVE" +:+ Getenv "HOMEPATH" in
    if String.eqb home "" then Getenv "USERPROFILE" else home
  else if String.eqb GOOS "linux" then
    let home := Getenv "XDG_CONFIG_HOME" in
    if negb (String.eqb home "") then home
    else (* fallthrough *) Getenv "HOME"
  else Getenv "HOME".

(** [homeDir := gethomedir(currentOptions.HomeDir)] and the check that
    follows it in [MainWithConfiguration]. *)
Definition home_directory (GOOS : string) (Getenv : string -> string)
    (optionsHome : string) : Outcome string :=
  let homeDir := gethomedir GOOS Getenv optionsHome in
  do _ <- fatalIfFalse (negb (String.eqb homeDir "")) "home directory is empty";
  Returned homeDir.

Lemma append_empty (a b : string) : a +:+ b = "" <-> a = "" /\ b = "".
Proof.
  split; [|by intros [-> ->]].
  destruct a as [|c a]; [|discriminate]. intros H. split; [done|exact H].
Qed.

(** X22: the home directory.  A directory given in the options is taken as
    it is, whatever the platform and the environment.  Without one, the
    result is empty, and the run ends with "home directory is empty", exactly
    when the variables read on the platform are all empty: HOMEDRIVE,
    HOMEPATH and USERPROFILE on windows, XDG_CONFIG_HOME and HOME on linux,
    HOME elsewhere. *)
Theorem home_directory_is_fatal_exactly_when_nothing_names_a_home
    (GOOS : string) (Getenv : string -> string) (optionsHome : string) :
  let nothing_names_a_home :=
    optionsHome = "" /\
    if String.eqb GOOS "windows" then
      Getenv "HOMEDRIVE" = "" /\ Getenv "HOMEPATH" = "" /\ Getenv "USERPROFILE" = ""
    else if String.eqb GOOS "linux" then
      Getenv "XDG_CONFIG_HOME" = "" /\ Getenv "HOME" = ""
    else Getenv "HOME" = "" in
  match home_directory GOOS Getenv optionsHome with
  | Returned homeDir =>
      homeDir <> "" /\ ~ nothing_names_a_home /\
      (optionsHome <> "" -> homeDir = optionsHome)
  | Panicked msg => msg = "home directory is empty" /\ nothing_names_a_home
  end.
Proof.
  cbv zeta. unfold home_directory, fatalIfFalse. rewrite negb_involutive.
  destruct (String.eqb_spec (gethomedir GOOS Getenv optionsHome) "") as [Hhome|Hhome];
    cbn [bind]; unfold gethomedir in Hhome |- *;
    destruct (String.eqb_spec optionsHome "") as [Hopt|Hopt]; cbn [negb] in Hhome |- *;
    try done.
  - split; [done|]. split; [done|].
    destruct (String.eqb GOOS "windows").
    + destruct (String.eqb_spec (Getenv "HOMEDRIVE" +:+ Getenv "HOMEPATH") "") as [H|H];
        [|done].
      apply append_empty in H as [H1 H2]. done.
    + destruct (String.eqb GOOS "linux"); [|done].
      destruct (String.eqb_spec (Getenv "XDG_CONFIG_HOME") "") as [H|H]; done.
  - split; [done|]. split; [|done]. intros [_ Hnone].
    destruct (String.eqb GOOS "windows").
    + destruct Hnone as (H1 & H2 & H3). rewrite H1, H2 in Hhome.
      by rewrite H3 in Hhome.
    + destruct (String.eqb GOOS "linux").
      * destruct Hnone as [H1 H2]. rewrite H1 in Hhome. by rewrite H2 in Hhome.
      * by rewrite Hnone in Hhome.
  - split; [done|]. split; [|done]. by intros [? _].
Qed.

(** *** A newline at the end of the input file *)

(** The file with one more newline at its end. *)
Definition with_final_newline (ReadFile : string -> string * error) (path : string) :
    string * error :=
  (fst (ReadFile path) +:+ String newline "", snd (ReadFile path)).

Lemma Split_final (sep : ascii) (s : string) :
  Split sep (s +:+ String sep "") = Split sep s ++ [""].
Proof.
  induction s as [|c s IH].
  - change (EmptyString +:+ String sep EmptyString) with (String sep EmptyString).
    cbn [Split]. by rewrite Ascii.eqb_refl.
  - change (String c s +:+ String sep "") with (String c (s +:+ String sep "")).
    cbn [Split]. rewrite IH.
    destruct (Ascii.eqb c sep); [done|].
    pose proof (Split_segments sep s) as [Hne _].
    by destruct (Split sep s).
Qed.

(** X23: a newline at the end of the input file makes no input.  Reading a
    file and reading the same file with one more newline at its end give the
    same options, and the same fatal errors. *)
Theorem loadFileInputs_ignores_a_newline_at_the_end_of_the_file
    (ReadFile : string -> string * error) (opts : Options) :
  loadFileInputs (with_final_newline ReadFile) opts = loadFileInputs ReadFile opts.
Proof.
  unfold loadFileInputs, with_final_newline.
  destruct (negb (String.eqb (InputFilePath opts) "")); [|done].
  destruct (negb (Nat.eqb (length (Inputs opts)) 0)); [done|].
  destruct (ReadFile (InputFilePath opts)) as [content err]. cbn [fst snd bind].
  destruct err as [e|]; [done|]. cbn [fatalOnError bind]. f_equal.
  rewrite Split_final, foldl_app. cbn. done.
Qed.

End libminiooni.

(** ** oonimkall: the asynchronous task runner

    The package itself (StartTask, the runner, the event queue) is not among
    the sources, only its integration tests are.  Its definitions are taken
    from the specification, sections 3 to 7, and from what the tests show of
    the interface. *)

Module oonimkall.

Import engine.

(** Modelled from the spec: the per-run settings of a task's configuration
    (section 3, Config; the names are those of the payloads in the tests). *)
Record Options : Type := {
  no_bouncer : bool;
  no_collector : bool;
  no_geoip : bool;
  no_json : bool;
  no_resolver_lookup : bool;
  save_real_probe_asn : bool;
  save_real_probe_cc : bool;
  save_real_probe_ip : bool;
  max_runtime : Z;
  software_name : string;
  software_version : string;
}.

(** Modelled from the spec: the startup configuration of one task (section 3,
    Config, and section 6, Start operation). *)
Record Settings : Type := {
  name : string;
  inputs : list string;
  input_filepaths : list string;
  assets_dir : string;
  state_dir : string;
  log_level : string;
  options : Options;
}.

(** Modelled from the spec: one probe result for one input, with the fields
    the privacy post-processing rewrites (sections 3 and 4.3). *)
Record Measurement : Type := {
  input : string;
  probe_asn : string;
  probe_cc : string;
  probe_ip : string;
  test_failure : option string;   (* a probe failure is recorded inside *)
}.

(** Modelled from the spec: the closed event vocabulary of section 6; the
    payload of [measurement] is kept decoded. *)
Inductive Event : Type :=
| status_queued
| status_started
| status_progress (percentage : Z) (message : string)
| status_geoip_lookup
| status_resolver_lookup
| status_report_create
| status_measurement_start
| log (level message : string)
| measurement (idx : nat) (json_str : Measurement)
| status_measurement_submission
| status_measurement_done
| status_end (downloaded_kb uploaded_kb : Z)
| failure_startup (failure : string)
| task_terminated.

(** Modelled from the spec: the key of each event of the vocabulary. *)
Definition key (e : Event) : string :=
  match e with
  | status_queued => "status.queued"
  | status_started => "status.started"
  | status_progress _ _ => "status.progress"
  | status_geoip_lookup => "status.geoip_lookup"
  | status_resolver_lookup => "status.resolver_lookup"
  | status_report_create => "status.report_create"
  | status_measurement_start => "status.measurement_start"
  | log _ _ => "log"
  | measurement _ _ => "measurement"
  | status_measurement_submission => "status.measurement_submission"
  | status_measurement_done => "status.measurement_done"
  | status_end _ _ => "status.end"
  | failure_startup _ => "failure.startup"
  | task_terminated => "task_terminated"
  end.

(** Modelled from the spec: what the run operation of an experiment hands
    back for one input (section 6): its log lines, its progress reports and
    the measurement. *)
Record Probe : Type := {
  probe_logs : list (string * string);
  probe_progress : list (Z * string);
  probe_result : Measurement;
}.

(** Modelled from the spec: the sentinel values of section 4.3. *)
Definition sentinel_asn : string := "AS0".
Definition sentinel_cc : string := "ZZ".
Definition sentinel_ip : string := "127.0.0.1".

(** Modelled from the spec: the privacy post-processing of section 4.3, "the
    probe's IP, autonomous-system number, and country code fields are each
    replaced with fixed sentinel values unless the corresponding
    save_real_probe flag is set". *)
Definition scrub (o : Options) (m : Measurement) : Measurement :=
  {| input := input m;
     probe_asn := if save_real_probe_asn o then probe_asn m else sentinel_asn;
     probe_cc := if save_real_probe_cc o then probe_cc m else sentinel_cc;
     probe_ip := if save_real_probe_ip o then probe_ip m else sentinel_ip;
     test_failure := test_failure m |}.



(** Modelled from the spec: the consumer-facing handle of section 2: the
    configuration, the events the runner hands to the queue that were not
    taken yet, and whether the terminal event was consumed. *)
Record Task : Type := {
  config : Settings;
  queue : list Event;
  isdone : bool;
}.

Definition is_terminated (e : Event) : bool :=
  match e with
  | task_terminated => true
  | _ => false
  end.

(** Modelled from the spec: "retrieve the next event" of section 6.  Once the
    producer has finished and the queue is drained, the terminal event is what
    a further call returns (TestIntegrationGood). *)
Definition WaitForNextEvent (t : Task) : Event * Task :=
  match queue t with
  | e :: rest =>
      (e, {| config := config t; queue := rest; isdone := isdone t || is_terminated e |})
  | [] => (task_terminated, {| config := config t; queue := []; isdone := true |})
  end.

(** Modelled from the spec: "query whether the task has fully terminated,
    i.e. the terminal event has been both produced and consumed". *)
Definition IsDone (t : Task) : bool := isdone t.

(** The polling loop of every test, [for !task.IsDone() { WaitForNextEvent }],
    run for at most [fuel] events. *)
Fixpoint poll (fuel : nat) (t : Task) : list Event :=
  match fuel with
  | O => []
  | S fuel' =>
      if IsDone t then []
      else let '(e, t') := WaitForNextEvent t in e :: poll fuel' t'
  end.

Section runner.

(** The collaborators of section 6: the decoder of the payload, the
    experiment builder of the session (the input policy of an experiment
    known by name), whether subdirectories can be created under a directory,
    the progress reported around the lookups, the experiment itself,
    submission and persistence, the cooperative checkpoint before an input
    (interrupt flag or deadline), and the byte counters. *)
Context (decode : string -> Settings + Err).
Context (experiment_policy : string -> option InputPolicy).
Context (creatable : string -> bool).
Context (progress_before progress_after : list (Z * string)).
Context (probe : string -> nat -> string -> Probe).
Context (submitted saved : nat -> bool).
Context (stop_requested : nat -> bool).
Context (downloaded_kb uploaded_kb : Z).

(** Modelled from the spec: a directory is required, must be a non-empty
    string, and subdirectories must be creatable under it (section 6). *)
Definition invalid_dir (dir : string) : bool :=
  String.eqb dir "" || negb (creatable dir).

(** Modelled from the spec: the soft checks of section 4.1, "in order,
    short-circuiting on first failure".  A path of input files is refused by
    itself, as TestIntegrationUnsupportedSetting shows. *)
Definition startup_failure (s : Settings) : option string :=
  match experiment_policy (name s) with
  | None => Some "unknown experiment"
  | Some policy =>
      if invalid_dir (assets_dir s) then Some "assets_dir is missing or not usable"
      else if invalid_dir (state_dir s) then Some "state_dir is missing or not usable"
      else if no_geoip (options s) && negb (no_resolver_lookup (options s)) then
        Some "no_geoip requires no_resolver_lookup"
      else if negb (Nat.eqb (length (input_filepaths s)) 0) then
        Some "input_filepaths is not supported"
      else
        match policy, inputs s with
        | InputNone, _ :: _ => Some "the experiment takes no input"
        | InputRequired, [] => Some "the experiment requires input"
        | _, _ => None
        end
  end.

(** The soft checks by name. *)
Definition fails_soft_check (s : Settings) : Prop :=
  experiment_policy (name s) = None \/
  invalid_dir (assets_dir s) = true \/
  invalid_dir (state_dir s) = true \/
  (no_geoip (options s) = true /\ no_resolver_lookup (options s) = false) \/
  input_filepaths s <> [] \/
  (experiment_policy (name s) = Some InputRequired /\ inputs s = []) \/
  (experiment_policy (name s) = Some InputNone /\ inputs s <> []).

(** Modelled from the spec: an experiment that is given no input runs once
    (section 8, first property); the model runs it on the empty input. *)
Definition measured_inputs (s : Settings) : list string :=
  match inputs s with
  | [] => [""]
  | given => given
  end.

(** Modelled from the spec: the events of one input (section 4.3): start,
    the probe's logs and progress, the scrubbed measurement, then submission
    and persistence, whose failures are logged and stop nothing. *)
Definition measure_one (s : Settings) (idx : nat) (input : string) : list Event :=
  let p := probe (name s) idx input in
  [status_measurement_start]
  ++ ((fun l => log (fst l) (snd l)) <$> probe_logs p)
  ++ ((fun r => status_progress (fst r) (snd r)) <$> probe_progress p)
  ++ [measurement idx (scrub (options s) (probe_result p))]
  ++ (if no_collector (options s) then []
      else if submitted idx then [status_measurement_submission]
      else [log "WARNING" "cannot submit measurement"])
  ++ (if no_json (options s) || saved idx then []
      else [log "WARNING" "cannot save measurement"]).

(** Modelled from the spec: inputs are processed strictly one after the
    other, and no new input begins once the checkpoint before it finds the
    task interrupted or past its deadline (section 4.4). *)
Fixpoint measure_from (s : Settings) (idx : nat) (todo : list string) : list Event :=
  match todo with
  | [] => []
  | input :: rest =>
      if stop_requested idx then []
      else measure_one s idx input ++ measure_from s (S idx) rest
  end.

(** Modelled from the spec: the events of a run up to the terminal one
    (sections 4.1 and 4.3).  A startup failure goes straight to the
    finalization; a valid configuration follows the canonical sequence. *)
Definition lifecycle (s : Settings) : list Event :=
  [status_queued; status_started] ++
  match startup_failure s with
  | Some failure => [failure_startup failure; status_end 0 0]
  | None =>
      ((fun r => status_progress (fst r) (snd r)) <$> progress_before)
      ++ [status_geoip_lookup; status_resolver_lookup]
      ++ ((fun r => status_progress (fst r) (snd r)) <$> progress_after)
      ++ (if no_collector (options s) then [] else [status_report_create])
      ++ measure_from s 0 (measured_inputs s)
      ++ [status_measurement_done; status_end downloaded_kb uploaded_kb]
  end.

(** Modelled from the spec: "task_terminated is always the last event". *)
Definition run (s : Settings) : list Event := lifecycle s ++ [task_terminated].

(** Modelled from the spec: the start operation of sections 4.1 and 6.  A
    payload that does not decode gives the error and no task; any other
    payload gives a task whose runner has been started. *)
Definition StartTask (payload : string) : option Task * error :=
  match decode payload with
  | inr err => (None, Some err)
  | inl s => (Some {| config := s; queue := run s; isdone := false |}, None)
  end.

(** The events a start operation causes. *)
Definition emitted (started : option Task * error) : list Event :=
  match fst started with
  | Some task => queue task
  | None => []
  end.

(** How often an event of a given key occurs. *)
Definition count_key (k : string) (events : list Event) : nat :=
  length (filter (fun e => key e = k) events).

(** *** The terminal event closes every run *)

Lemma measure_from_not_terminated (s : Settings) (todo : list string) (idx : nat) :
  Forall (fun e => is_terminated e = false) (measure_from s idx todo).
Proof using Type.
  revert idx. induction todo as [|input rest IH]; intros idx; cbn [measure_from];
    [constructor|].
  destruct (stop_requested idx); [constructor|].
  apply Forall_app. split; [|apply IH].
  unfold measure_one. rewrite !Forall_app. repeat split.
  - by repeat constructor.
  - apply Forall_fmap, Forall_forall. done.
  - apply Forall_fmap, Forall_forall. done.
  - by repeat constructor.
  - destruct (no_collector (options s)); [constructor|].
    destruct (submitted idx); by repeat constructor.
  - destruct (no_json (options s) || saved idx); by repeat constructor.
Qed.

Lemma lifecycle_not_terminated (s : Settings) :
  Forall (fun e => is_terminated e = false) (lifecycle s).
Proof using Type.
  unfold lifecycle. apply Forall_app. split; [by repeat constructor|].
  destruct (startup_failure s); [by repeat constructor|].
  rewrite !Forall_app. repeat split.
  - apply Forall_fmap, Forall_forall. done.
  - by repeat constructor.
  - apply Forall_fmap, Forall_forall. done.
  - destruct (no_collector (options s)); by repeat constructor.
  - apply measure_from_not_terminated.
  - by repeat constructor.
Qed.

(** The polling loop sees the events of the run in their order, the terminal
    event last, and then stops. *)
Lemma poll_sees_the_queue (c : Settings) (body : list Event) (fuel : nat) :
  Forall (fun e => is_terminated e = false) body ->
  (length (body ++ [task_terminated]) <= fuel)%nat ->
  poll fuel {| config := c; queue := body ++ [task_terminated]; isdone := false |}
  = body ++ [task_terminated].
Proof using Type.
  revert fuel. induction body as [|e body IH]; intros fuel Hbody Hfuel.
  - destruct fuel as [|fuel]; [simpl in Hfuel; lia|].
    simpl. destruct fuel; reflexivity.
  - destruct fuel as [|fuel]; [simpl in Hfuel; lia|].
    apply Forall_cons in Hbody as [He Hbody].
    cbn [poll IsDone isdone WaitForNextEvent queue app config orb].
    rewrite He. f_equal. apply IH; [done|]. simpl in Hfuel. lia.
Qed.

Lemma poll_sees_the_run (s : Settings) (fuel : nat) :
  (length (run s) <= fuel)%nat ->
  poll fuel {| config := s; queue := run s; isdone := false |} = run s.
Proof using Type. apply poll_sees_the_queue, lifecycle_not_terminated. Qed.

(** *** Start-time errors and startup failures *)

(** C1: a payload that cannot be decoded makes the start operation return the
    error together with no task, and no event is emitted; a payload that
    decodes gives a live task and no error, whatever else is wrong with the
    configuration. *)
Theorem C1_start_returns_an_error_exactly_for_undecodable_payloads (payload : string) :
  match decode payload with
  | inr err =>
      StartTask payload = (None, Some err) /\ emitted (StartTask payload) = []
  | inl s =>
      exists task,
        StartTask payload = (Some task, None) /\
        config task = s /\ IsDone task = false /\ queue task = run s
  end.
Proof using Type.
  unfold StartTask, emitted. destruct (decode payload) as [s|err]; simpl.
  - eexists. repeat split; reflexivity.
  - split; reflexivity.
Qed.

Lemma soft_check_fails_startup (s : Settings) :
  fails_soft_check s -> exists failure, startup_failure s = Some failure.
Proof using Type.
  unfold fails_soft_check, startup_failure.
  intros Hfail.
  destruct (experiment_policy (name s)) as [policy|]; [|by eexists].
  destruct (invalid_dir (assets_dir s)); [by eexists|].
  destruct (invalid_dir (state_dir s)); [by eexists|].
  destruct (no_geoip (options s)), (no_resolver_lookup (options s));
    cbn [andb negb]; try (by eexists);
    (destruct (input_filepaths s) as [|f fs]; cbn [length Nat.eqb negb]; [|by eexists]);
    destruct policy, (inputs s) as [|i is_]; try (by eexists);
    destruct Hfail as [H|[H|[H|[[H1 H2]|[H|[[H1 H2]|[H1 H2]]]]]]]; congruence.
Qed.

(** C2: a configuration that decodes but fails a soft startup check still
    gives a live task.  Its consumer sees status.queued, status.started, one
    failure.startup event, status.end and then task_terminated: exactly one
    failure.startup, after the first two and before the terminal event, and
    no measurement is started. *)
Theorem C2_soft_startup_failure_is_one_event_on_a_live_task
    (payload : string) (s : Settings) :
  decode payload = inl s ->
  fails_soft_check s ->
  exists task failure,
    StartTask payload = (Some task, None) /\
    IsDone task = false /\
    (forall fuel, (5 <= fuel)%nat ->
       poll fuel task =
       [status_queued; status_started; failure_startup failure;
        status_end 0 0; task_terminated]) /\
    count_key "failure.startup" (queue task) = 1%nat /\
    count_key "status.measurement_start" (queue task) = 0%nat /\
    count_key "measurement" (queue task) = 0%nat.
Proof using Type.
  intros Hdecode Hfail.
  destruct (soft_check_fails_startup s Hfail) as [failure Hstart].
  assert (Hrun : run s = [status_queued; status_started; failure_startup failure;
                          status_end 0 0; task_terminated]).
  { unfold run, lifecycle. by rewrite Hstart. }
  exists {| config := s; queue := run s; isdone := false |}, failure.
  split; [unfold StartTask; by rewrite Hdecode|].
  split; [reflexivity|].
  split.
  - intros fuel Hfuel. rewrite <- Hrun. apply poll_sees_the_run.
    rewrite Hrun. simpl. lia.
  - cbn [queue]. rewrite Hrun. repeat split; reflexivity.
Qed.

(** *** Privacy post-processing *)



End runner.

(** *** The configurations of the integration tests

    Doubles for the collaborators: the decoder refuses the payload of
    TestIntegrationInvalidJSON and reads any other payload as the name of the
    experiment to run on the directories of the test data; the session knows
    the example experiments; the probe reports the location it was given. *)

Definition test_options (save_asn save_cc save_ip : bool) : Options :=
  {| no_bouncer := false; no_collector := false; no_geoip := false;
     no_json := false; no_resolver_lookup := false;
     save_real_probe_asn := save_asn; save_real_probe_cc := save_cc;
     save_real_probe_ip := save_ip;
     max_runtime := 0; software_name := "oonimkall-test";
     software_version := "0.1.0" |}.

Definition test_settings (experiment : string) (o : Options) : Settings :=
  {| name := experiment; inputs := []; input_filepaths := [];
     assets_dir := "../testdata/oonimkall/assets";
     state_dir := "../testdata/oonimkall/state";
     log_level := "DEBUG"; options := o |}.

Definition decode_double (payload : string) : Settings + Err :=
  if String.eqb payload "{" then inr (ErrForeign "unexpected end of JSON input")
  else inl (test_settings payload (test_options false false false)).

Definition known_experiments (experiment : string) : option InputPolicy :=
  if String.eqb experiment "Example" then Some InputNone
  else if String.eqb experiment "ExampleWithInput" then Some InputRequired
  else None.

Definition probe_at (asn cc ip : string) (experiment : string) (idx : nat)
    (given : string) : Probe :=
  {| probe_logs := []; probe_progress := [];
     probe_result := {| input := given; probe_asn := asn; probe_cc := cc;
                        probe_ip := ip; test_failure := None |} |}.

(** A probe that knows where it is. *)
Definition located : string -> nat -> string -> Probe :=
  probe_at "AS30722" "IT" "93.147.252.33".

Definition test_run (probe : string -> nat -> string -> Probe) (s : Settings) : list Event :=
  run known_experiments (fun _ => true) [] [] probe (fun _ => true) (fun _ => true)
      (fun _ => false) 1 1 s.

(** The run of TestIntegrationGood, in the canonical order of section 4.3. *)
Example keys_of_a_good_run :
  key <$> test_run located (test_settings "Example" (test_options false false false))
  = ["status.queued"; "status.started"; "status.geoip_lookup"; "status.resolver_lookup";
     "status.report_create"; "status.measurement_start"; "measurement";
     "status.measurement_submission"; "status.measurement_done"; "status.end";
     "task_terminated"].
Proof. reflexivity. Qed.

(** The run of TestIntegrationInputIsRequired. *)
Example keys_of_a_run_without_the_required_input :
  key <$> test_run located (test_settings "ExampleWithInput" (test_options false false false))
  = ["status.queued"; "status.started"; "failure.startup"; "status.end"; "task_terminated"].
Proof. reflexivity. Qed.

(** The start of TestIntegrationInvalidJSON. *)
Example start_with_an_open_brace :
  StartTask decode_double known_experiments (fun _ => true) [] [] located
            (fun _ => true) (fun _ => true) (fun _ => false) 1 1 "{"
  = (None, Some (ErrForeign "unexpected end of JSON input")).
Proof. reflexivity. Qed.

(** C2 at the unknown experiment of TestIntegrationUnknownExperiment. *)
Lemma C2_witness :
  exists task failure,
    StartTask decode_double known_experiments (fun _ => true) [] [] located
              (fun _ => true) (fun _ => true) (fun _ => false) 1 1 "Antani"
    = (Some task, None) /\
    IsDone task = false /\
    (forall fuel, (5 <= fuel)%nat ->
       poll fuel task =
       [status_queued; status_started; failure_startup failure;
        status_end 0 0; task_terminated]) /\
    count_key "failure.startup" (queue task) = 1%nat /\
    count_key "status.measurement_start" (queue task) = 0%nat /\
    count_key "measurement" (queue task) = 0%nat.
Proof.
  apply (C2_soft_startup_failure_is_one_event_on_a_live_task
           decode_double known_experiments (fun _ => true) [] [] located
           (fun _ => true) (fun _ => true) (fun _ => false) 1 1
           "Antani" (test_settings "Antani" (test_options false false false))).
  - reflexivity.
  - left. reflexivity.
Defined.


End oonimkall.

(** ** The key compression of the oonimkall interrupt tests *)

Module oonimkall_test.

(** [if keys == nil || keys[len(keys)-1] != event.Key { keys = append(keys, event.Key) }] *)
Definition compress_step (keys : list string) (event_key : string) : list string :=
  match last keys with
  | Some previous => if String.eqb previous event_key then keys else keys ++ [event_key]
  | None => keys ++ [event_key]
  end.

(** The keys a test has collected when its polling loop ends. *)
Definition compress (event_keys : list string) : list string :=
  foldl compress_step [] event_keys.

(** No key is followed by itself. *)
Fixpoint no_repeat (keys : list string) : Prop :=
  match keys with
  | a :: (b :: _) as rest => a <> b /\ no_repeat rest
  | _ => True
  end.

Lemma no_repeat_snoc (keys : list string) (k : string) :
  no_repeat keys -> last keys <> Some k -> no_repeat (keys ++ [k]).
Proof.
  induction keys as [|a keys IH]; [done|].
  destruct keys as [|b keys]; simpl.
  - intros _ Hlast. split; [congruence|done].
  - intros [Hab Hrest] Hlast. split; [done|]. by apply IH.
Qed.

Lemma compress_step_spec (keys : list string) (k : string) :
  no_repeat keys ->
  no_repeat (compress_step keys k) /\
  last (compress_step keys k) = Some k /\
  (forall x, x ∈ compress_step keys k <-> x ∈ keys \/ x = k).
Proof.
  intros Hkeys. unfold compress_step.
  destruct (last keys) as [previous|] eqn:Hlast.
  - destruct (String.eqb_spec previous k) as [->|Hne].
    + split; [done|]. split; [done|].
      intros x. split; [by left|]. intros [H| ->]; [done|].
      by apply last_Some_elem_of.
    + split; [apply no_repeat_snoc; [done|congruence]|].
      split; [apply last_snoc|].
      intros x. rewrite elem_of_app, list_elem_of_singleton. done.
  - split; [apply no_repeat_snoc; [done|congruence]|].
    split; [apply last_snoc|].
    intros x. rewrite elem_of_app, list_elem_of_singleton. done.
Qed.

(** X10: the key sequence the interrupt tests compare with their expectation
    never holds a key twice in a row, and it holds exactly the keys that were
    observed. *)
Theorem compress_drops_exactly_the_immediate_repetitions (event_keys : list string) :
  no_repeat (compress event_keys) /\
  (forall k, k ∈ compress event_keys <-> k ∈ event_keys) /\
  last (compress event_keys) = last event_keys.
Proof.
  unfold compress.
  induction event_keys as [|k l IH] using rev_ind; [done|].
  rewrite foldl_app. simpl.
  destruct IH as (Hnr & Hmem & Hlast).
  destruct (compress_step_spec (foldl compress_step [] l) k Hnr) as (H1 & H2 & H3).
  split; [done|]. split.
  - intros x. rewrite H3, Hmem, elem_of_app, list_elem_of_singleton. done.
  - by rewrite H2, last_snoc.
Qed.

End oonimkall_test.
